(** * morphic.py: Animation, Color, Point and the module's start-up

    A shallow embedding of [morphic.py] (the Python port of Morphic).
    The file follows the source: the numeric tower ([int] and [float]),
    the exceptions the code can raise, the classes [Point], [Color] and
    [Animation], and the module's top-level statements run in source
    order over an explicit global namespace.

    Idealisation used throughout: a Python [float] is represented by an
    exact rational (kept in lowest terms), so rounding of binary floating
    point, [nan] and [inf] are outside the model. *)

From Stdlib Require Import ZArith QArith Qabs Qround Lia Lqa List.
From stdpp Require Import base strings gmap functions.
Import ListNotations.
Set Warnings "-register-all".
Open Scope string_scope.
Open Scope list_scope.

(** ** Exceptions and fallible computations *)

Inductive exn : Type :=
  | ZeroDivisionError
  | TypeError
  | AttributeError (attr : string)
  | NameError (name : string)
  | Exception (msg : string).

Inductive result (A : Type) : Type :=
  | Ok (a : A)
  | Raise (e : exn).

Arguments Ok {A} a.
Arguments Raise {A} e.

Definition rbind {A B : Type} (m : result A) (k : A -> result B) : result B :=
  match m with
  | Ok a => k a
  | Raise e => Raise e
  end.

Notation "'let*' x ':=' m 'in' k" := (rbind m (fun x => k))
  (at level 10, x pattern, m at level 100, k at level 200).

(** ** Python numbers *)

Module Num.

(** A number is an [int] (unbounded) or a [float]. *)
Inductive num : Type :=
  | NInt (z : Z)
  | NFloat (q : Q).

Definition is_int (n : num) : bool :=
  match n with
  | NInt _ => true
  | NFloat _ => false
  end.

(** [float(n)] *)
Definition to_float (n : num) : Q :=
  match n with
  | NInt z => inject_Z z
  | NFloat q => q
  end.

Definition mkfloat (q : Q) : num := NFloat (Qred q).

(** [int(q)] for a float [q]: truncation towards zero. *)
Definition trunc (q : Q) : Z := Z.quot (Qnum q) (Zpos (Qden q)).

(** [int(float(n))]. Exact, as Python is, for a float and for an int of
    magnitude up to 2^53; a larger int Python first rounds to the nearest
    double, and from 2^1024 on [float(n)] raises OverflowError. The
    model keeps the int as it is: properties that depend on this state
    bounds on their inputs. *)
Definition int_float (n : num) : Z := trunc (to_float n).

(** Arithmetic below is exact. Python rounds every float result to
    binary64 (so 3*0.01 + 3*0.99 is 2.9999999999999996), lets a float
    result overflow to inf, and raises OverflowError when an int from
    2^1024 on meets a float. Properties that depend on this state bounds
    on their inputs, or leave room for the rounding. *)
Definition add (a b : num) : num :=
  match a, b with
  | NInt x, NInt y => NInt (x + y)
  | _, _ => mkfloat (to_float a + to_float b)
  end.

Definition sub (a b : num) : num :=
  match a, b with
  | NInt x, NInt y => NInt (x - y)
  | _, _ => mkfloat (to_float a - to_float b)
  end.

Definition mul (a b : num) : num :=
  match a, b with
  | NInt x, NInt y => NInt (x * y)
  | _, _ => mkfloat (to_float a * to_float b)
  end.

Definition neg (a : num) : num :=
  match a with
  | NInt x => NInt (- x)
  | NFloat q => mkfloat (- q)
  end.

Definition abs (a : num) : num :=
  match a with
  | NInt x => NInt (Z.abs x)
  | NFloat q => mkfloat (Qabs q)
  end.

Definition is_zero (a : num) : bool := Qeq_bool (to_float a) 0.

(** [a / b]: true division, always a float; the exact quotient, where
    Python gives the nearest double (two distinct large ints can have the
    same one) or overflows. *)
Definition truediv (a b : num) : result num :=
  if is_zero b then Raise ZeroDivisionError
  else Ok (mkfloat (to_float a / to_float b)).

(** [a // b]: the floor of the quotient. *)
Definition floordiv (a b : num) : result num :=
  if is_zero b then Raise ZeroDivisionError
  else match a, b with
       | NInt x, NInt y => Ok (NInt (x / y))
       | _, _ => Ok (mkfloat (inject_Z (Qfloor (to_float a / to_float b))))
       end.

(** [a % b]: the remainder has the sign of the divisor. *)
Definition mod_ (a b : num) : result num :=
  if is_zero b then Raise ZeroDivisionError
  else match a, b with
       | NInt x, NInt y => Ok (NInt (x mod y))
       | _, _ =>
           Ok (mkfloat (to_float a -
                        to_float b * inject_Z (Qfloor (to_float a / to_float b))))
       end.

(** [a ** n] for a literal exponent [n >= 0]. *)
Fixpoint pow (a : num) (n : nat) : num :=
  match n with
  | O => NInt 1
  | S O => a
  | S n' => mul a (pow a n')
  end.

Definition eqb (a b : num) : bool := Qeq_bool (to_float a) (to_float b).
Definition leb (a b : num) : bool := Qle_bool (to_float a) (to_float b).
Definition ltb (a b : num) : bool := negb (Qle_bool (to_float b) (to_float a)).

(** The builtins [max(a, b)] and [min(a, b)]: the first argument wins ties. *)
Definition max (a b : num) : num := if ltb a b then b else a.
Definition min (a b : num) : num := if ltb b a then b else a.

(** Round half to even, the rule of the builtin [round]. *)
Definition round_half_even (q : Q) : Z :=
  let f := Qfloor q in
  match Qcompare (q - inject_Z f) (1 # 2) with
  | Lt => f
  | Gt => (f + 1)%Z
  | Eq => if Z.even f then f else (f + 1)%Z
  end.

(** [round(a, ndigits)] with [ndigits] given: an int stays an int, a float
    stays a float. *)
Definition round (a : num) (ndigits : Z) : num :=
  match a with
  | NInt x =>
      if (0 <=? ndigits)%Z then NInt x
      else let m := (10 ^ (- ndigits))%Z in
           NInt (round_half_even (inject_Z x / inject_Z m) * m)
  | NFloat q =>
      if (0 <=? ndigits)%Z
      then let m := inject_Z (10 ^ ndigits) in
           mkfloat (inject_Z (round_half_even (q * m)) / m)
      else let m := inject_Z (10 ^ (- ndigits)) in
           mkfloat (inject_Z (round_half_even (q / m)) * m)
  end.

(** [math.floor(a)] and [math.ceil(a)]: always an int. (In Python they
    raise OverflowError on a float that has overflowed to inf.) *)
Definition floor (a : num) : num := NInt (Qfloor (to_float a)).
Definition ceil (a : num) : num := NInt (Qceiling (to_float a)).

End Num.

Abbreviation num := Num.num.
Abbreviation NInt := Num.NInt.
Abbreviation NFloat := Num.NFloat.

(** ** class Point *)

Module Point.

(** A Point holds two attributes; Python does not type them, so they are
    numbers of either kind here. *)
Record t : Type := mk { x : num; y : num }.

(** [Point.__init__(self, x=0, y=0)]; see [Num.int_float] for the ints
    on which [int(float(x))] is exact. *)
Definition init (x0 y0 : num) : t :=
  {| x := NInt (Num.int_float x0); y := NInt (Num.int_float y0) |}.

(** What the second argument of a binary method may be: another Point or
    a plain number. *)
Inductive operand : Type :=
  | OPoint (p : t)
  | ONum (n : num).

Definition copy (self : t) : t := init (x self) (y self).

Definition max (self : t) (other : operand) : t :=
  match other with
  | OPoint o => init (Num.max (x self) (x o)) (Num.max (y self) (y o))
  | ONum _ => self
  end.

Definition min (self : t) (other : operand) : t :=
  match other with
  | OPoint o => init (Num.min (x self) (x o)) (Num.min (y self) (y o))
  | ONum _ => self
  end.

Definition round (self : t) (ndigits : Z) : t :=
  init (Num.round (x self) ndigits) (Num.round (y self) ndigits).

Definition abs (self : t) : t := init (Num.abs (x self)) (Num.abs (y self)).

Definition neg (self : t) : t := init (Num.neg (x self)) (Num.neg (y self)).

Definition floor (self : t) : t := init (Num.floor (x self)) (Num.floor (y self)).

Definition ceil (self : t) : t := init (Num.ceil (x self)) (Num.ceil (y self)).

(** The arithmetic operators. *)
Definition add (self : t) (other : operand) : t :=
  match other with
  | OPoint o => init (Num.add (x self) (x o)) (Num.add (y self) (y o))
  | ONum n => init (Num.add (x self) n) (Num.add (y self) n)
  end.

Definition sub (self : t) (other : operand) : t :=
  match other with
  | OPoint o => init (Num.sub (x self) (x o)) (Num.sub (y self) (y o))
  | ONum n => init (Num.sub (x self) n) (Num.sub (y self) n)
  end.

Definition mul (self : t) (other : operand) : t :=
  match other with
  | OPoint o => init (Num.mul (x self) (x o)) (Num.mul (y self) (y o))
  | ONum n => init (Num.mul (x self) n) (Num.mul (y self) n)
  end.

(** Both coordinates are computed before the constructor is called. *)
Definition lift2 (f : num -> num -> result num) (a b c d : num) : result t :=
  let* u := f a b in
  let* v := f c d in
  Ok (init u v).

Definition truediv (self : t) (other : operand) : result t :=
  match other with
  | OPoint o => lift2 Num.truediv (x self) (x o) (y self) (y o)
  | ONum n => lift2 Num.truediv (x self) n (y self) n
  end.

Definition floordiv (self : t) (other : operand) : result t :=
  match other with
  | OPoint o => lift2 Num.floordiv (x self) (x o) (y self) (y o)
  | ONum n => lift2 Num.floordiv (x self) n (y self) n
  end.

Definition mod_ (self : t) (other : operand) : result t :=
  match other with
  | OPoint o => lift2 Num.mod_ (x self) (x o) (y self) (y o)
  | ONum n => lift2 Num.mod_ (x self) n (y self) n
  end.

(** The reflected operators. *)
Definition radd (self : t) (other : operand) : t :=
  match other with
  | OPoint o => init (Num.add (x self) (x o)) (Num.add (y self) (y o))
  | ONum n => init (Num.add (x self) n) (Num.add (y self) n)
  end.

Definition rsub (self : t) (other : operand) : t :=
  match other with
  | OPoint o => init (Num.sub (x o) (x self)) (Num.sub (y o) (y self))
  | ONum n => init (Num.sub n (x self)) (Num.sub n (y self))
  end.

Definition rmul (self : t) (other : operand) : t :=
  match other with
  | OPoint o => init (Num.mul (x o) (x self)) (Num.mul (y o) (y self))
  | ONum n => init (Num.mul n (x self)) (Num.mul n (y self))
  end.

Definition rtruediv (self : t) (other : operand) : result t :=
  match other with
  | OPoint o => lift2 Num.truediv (x o) (x self) (y o) (y self)
  | ONum n => lift2 Num.truediv n (x self) n (y self)
  end.

Definition rfloordiv (self : t) (other : operand) : result t :=
  match other with
  | OPoint o => lift2 Num.floordiv (x o) (x self) (y o) (y self)
  | ONum n => lift2 Num.floordiv n (x self) n (y self)
  end.

Definition rmod (self : t) (other : operand) : result t :=
  match other with
  | OPoint o => lift2 Num.mod_ (x o) (x self) (y o) (y self)
  | ONum n => lift2 Num.mod_ n (x self) n (y self)
  end.

(** [__dot__]: [NotImplemented] is returned, not raised, for a non-Point;
    [mirror] only calls it with a Point. *)
Definition dot (self other : t) : num :=
  let sto := mul self (OPoint other) in
  Num.add (x sto) (y sto).

(** The property [asTuple]. *)
Definition asTuple (self : t) : num * num := (x self, y self).

(** Unary minus applied to a tuple: tuples do not define it. *)
Definition tuple_neg (tp : num * num) : result (num * num) := Raise TypeError.

(** [mirror(self, axis=None)]; [flip] is the same method. The line
    [x, y = -self.asTuple] negates the tuple, not the point. *)
Definition mirror (self : t) (axis : option operand) : result t :=
  let axis1 := match axis with
               | Some (OPoint a) => a
               | _ => init (NInt 1) (NInt 1)
               end in
  let axis2 := abs axis1 in
  let '(vx, vy) := asTuple axis2 in
  let* (x0, y0) := tuple_neg (asTuple self) in
  let* r := Num.truediv (NInt 1) (dot axis2 axis2) in
  Ok (init
        (Num.add (x self)
           (Num.mul (NInt 2)
              (Num.sub x0
                 (Num.mul (Num.mul (Num.sub (Num.mul x0 vx) (Num.mul y0 vy)) r) vx))))
        (Num.add (y self)
           (Num.mul (NInt 2)
              (Num.sub y0
                 (Num.mul (Num.mul (Num.sub (Num.mul y0 vy) (Num.mul x0 vx)) r) vy))))).

Definition scale (self : t) (s : operand) : t := mul self s.

Definition translate (self : t) (delta : operand) : t := add self delta.

(** The Point-producing methods, by name. *)
Inductive method : Type :=
  | Copy | Max (o : operand) | Min (o : operand) | Round (ndigits : Z)
  | Abs | Neg | Mirror (axis : option operand) | Floor | Ceil
  | Add (o : operand) | Sub (o : operand) | Mul (o : operand)
  | TrueDiv (o : operand) | FloorDiv (o : operand) | Mod (o : operand)
  | RAdd (o : operand) | RSub (o : operand) | RMul (o : operand)
  | RTrueDiv (o : operand) | RFloorDiv (o : operand) | RMod (o : operand)
  | Scale (o : operand) | Translate (o : operand).

Definition call (self : t) (m : method) : result t :=
  match m with
  | Copy => Ok (copy self)
  | Max o => Ok (max self o)
  | Min o => Ok (min self o)
  | Round nd => Ok (round self nd)
  | Abs => Ok (abs self)
  | Neg => Ok (neg self)
  | Mirror a => mirror self a
  | Floor => Ok (floor self)
  | Ceil => Ok (ceil self)
  | Add o => Ok (add self o)
  | Sub o => Ok (sub self o)
  | Mul o => Ok (mul self o)
  | TrueDiv o => truediv self o
  | FloorDiv o => floordiv self o
  | Mod o => mod_ self o
  | RAdd o => Ok (radd self o)
  | RSub o => Ok (rsub self o)
  | RMul o => Ok (rmul self o)
  | RTrueDiv o => rtruediv self o
  | RFloorDiv o => rfloordiv self o
  | RMod o => rmod self o
  | Scale o => Ok (scale self o)
  | Translate o => Ok (translate self o)
  end.

(** The Point argument of a method call, when it has one. *)
Definition method_point (m : method) : option t :=
  match m with
  | Max (OPoint o) | Min (OPoint o) | Mirror (Some (OPoint o))
  | Add (OPoint o) | Sub (OPoint o) | Mul (OPoint o)
  | TrueDiv (OPoint o) | FloorDiv (OPoint o) | Mod (OPoint o)
  | RAdd (OPoint o) | RSub (OPoint o) | RMul (OPoint o)
  | RTrueDiv (OPoint o) | RFloorDiv (OPoint o) | RMod (OPoint o)
  | Scale (OPoint o) | Translate (OPoint o) => Some o
  | _ => None
  end.

(** The Points a program can obtain: built by the constructor, or returned
    by a method called on a Point already obtained, with any number or any
    Point already obtained as its argument. *)
Inductive reachable : t -> Prop :=
  | reach_init (x0 y0 : num) : reachable (init x0 y0)
  | reach_call (self : t) (m : method) (p : t) :
      reachable self ->
      (forall o, method_point m = Some o -> reachable o) ->
      call self m = Ok p ->
      reachable p.

Definition integral (p : t) : Prop :=
  Num.is_int (x p) = true /\ Num.is_int (y p) = true.

End Point.

(** ** Python values and the builtin namespace *)

Module Value.

(** The values the module's top-level code handles. A function, class or
    module object is identified by its name; an instance carries its class
    name and its attributes. *)
Inductive value : Type :=
  | VNone
  | VBool (b : bool)
  | VNum (n : num)
  | VStr (s : string)
  | VDict (items : list (string * value))
  | VBuiltin (name : string)
  | VFunction (name : string)
  | VClass (name : string)
  | VModule (name : string)
  | VInstance (cls : string) (attrs : list (string * value)).

(** [a == b]. Numbers compare by value ([True] and [False] count as 1 and
    0), strings by content; a function object equals only itself, and is
    never equal to a number. *)
Definition py_eq (a b : value) : bool :=
  match a, b with
  | VNone, VNone => true
  | VBool x, VBool y => Bool.eqb x y
  | VBool x, VNum n | VNum n, VBool x => Num.eqb (NInt (if x then 1 else 0)) n
  | VNum x, VNum y => Num.eqb x y
  | VStr x, VStr y => String.eqb x y
  | VBuiltin x, VBuiltin y => String.eqb x y
  | VFunction x, VFunction y => String.eqb x y
  | VClass x, VClass y => String.eqb x y
  | VModule x, VModule y => String.eqb x y
  | _, _ => false
  end.

(** Names bound in the [builtins] module. *)
Definition builtin_names : list string :=
  [ "abs"; "all"; "any"; "ascii"; "bin"; "bool"; "breakpoint"; "bytearray";
    "bytes"; "callable"; "chr"; "classmethod"; "compile"; "complex";
    "delattr"; "dict"; "dir"; "divmod"; "enumerate"; "eval"; "exec";
    "filter"; "float"; "format"; "frozenset"; "getattr"; "globals";
    "hasattr"; "hash"; "help"; "hex"; "id"; "input"; "int"; "isinstance";
    "issubclass"; "iter"; "len"; "list"; "locals"; "map"; "max";
    "memoryview"; "min"; "next"; "object"; "oct"; "open"; "ord"; "pow";
    "print"; "property"; "range"; "repr"; "reversed"; "round"; "set";
    "setattr"; "slice"; "sorted"; "staticmethod"; "str"; "sum"; "super";
    "tuple"; "type"; "vars"; "zip"; "Exception"; "NotImplemented" ].

Definition is_builtin (name : string) : bool :=
  existsb (String.eqb name) builtin_names.

(** Reading a global name: the module's namespace first, then builtins. *)
Definition load_name (g : gmap string value) (name : string) : result value :=
  match g !! name with
  | Some v => Ok v
  | None => if is_builtin name then Ok (VBuiltin name) else Raise (NameError name)
  end.

(** The attributes of the [dict] type. *)
Definition dict_attrs : list string :=
  [ "clear"; "copy"; "fromkeys"; "get"; "items"; "keys"; "pop"; "popitem";
    "setdefault"; "update"; "values" ].

Fixpoint assoc {A : Type} (k : string) (l : list (string * A)) : option A :=
  match l with
  | [] => None
  | (k', v) :: rest => if String.eqb k k' then Some v else assoc k rest
  end.

(** [obj.attr]: a dict exposes its methods, never its keys. *)
Definition getattr (obj : value) (attr : string) : result value :=
  match obj with
  | VDict _ =>
      if existsb (String.eqb attr) dict_attrs
      then Ok (VBuiltin (String.append "dict." attr))
      else Raise (AttributeError attr)
  | VInstance _ attrs =>
      match assoc attr attrs with
      | Some v => Ok v
      | None => Raise (AttributeError attr)
      end
  | _ => Raise (AttributeError attr)
  end.

End Value.

Import Value.

(** ** class Color *)

Module Color.

Record t : Type := mk { r : Z; g : Z; b : Z; a : Z }.

(** [int(n)] *)
Definition int (n : num) : Z :=
  match n with
  | NInt z => z
  | NFloat q => Num.trunc q
  end.

(** [Color.__init__(self, r=0, g=0, b=0, a=1)] *)
Definition init (r0 g0 b0 a0 : num) : t :=
  {| r := int r0; g := int g0; b := int b0; a := int a0 |}.

Definition copy (self : t) : t :=
  init (NInt (r self)) (NInt (g self)) (NInt (b self)) (NInt (a self)).

Definition never_raised : string :=
  "This error should never be raised. Please report this as a bug.".

(** [Color.rgba_hsva(cls, r=0, g=0, b=0, a=1)]. Inside the method the
    name [max] is the builtin function and [max_] the local variable. *)
Definition rgba_hsva (r0 g0 b0 a0 : num) : result (num * num * num * num) :=
  let* rr := Num.truediv r0 (NInt 255) in
  let* gg := Num.truediv g0 (NInt 255) in
  let* bb := Num.truediv b0 (NInt 255) in
  let max_ := Num.max (Num.max rr gg) bb in
  let min_ := Num.min (Num.min rr gg) bb in
  let v := max_ in
  let d := Num.sub max_ min_ in
  let* s := if Num.eqb max_ (NInt 0) then Ok (NInt 0) else Num.truediv d max_ in
  let* h :=
    if Num.eqb max_ min_ then Ok (NInt 0)
    else
      let* h1 :=
        if py_eq (VBuiltin "max") (VNum rr) then
          let* q := Num.truediv (Num.sub gg bb) d in
          Ok (Num.add q (if Num.ltb gg bb then NInt 6 else NInt 0))
        else if Num.eqb max_ gg then
          let* q := Num.truediv (Num.sub bb rr) d in
          Ok (Num.add q (NInt 2))
        else if Num.eqb max_ bb then
          let* q := Num.truediv (Num.sub rr gg) d in
          Ok (Num.add q (NInt 4))
        else Raise (Exception never_raised) in
      Num.truediv h1 (NInt 6) in
  Ok (h, s, v, a0).

(** The conversion applied to a Color's own channels, as [dansDarker]
    calls it. *)
Definition hsva_of (c : t) : result (num * num * num * num) :=
  rgba_hsva (NInt (r c)) (NInt (g c)) (NInt (b c)) (NInt (a c)).

End Color.

(** ** The module's top-level statements *)

Module Toplevel.

(** A statement transforms the global namespace or raises. *)
Definition stmt : Type := gmap string value -> result (gmap string value).

(** [name = rhs] *)
Definition assign (name : string)
    (rhs : gmap string value -> result value) : stmt :=
  fun g => let* v := rhs g in Ok (<[name := v]> g).

(** [import name] (the four modules are taken to be installed). *)
Definition import (name : string) : stmt :=
  fun g => Ok (<[name := VModule name]> g).

(** [def name(...): ...] binds the name; the body is not run. *)
Definition def (name : string) : stmt :=
  fun g => Ok (<[name := VFunction name]> g).

(** [class name: ...]; the three class bodies only bind methods. *)
Definition class (name : string) : stmt :=
  fun g => Ok (<[name := VClass name]> g).

Definition point_value (p : Point.t) : value :=
  VInstance "Point" [("x", VNum (Point.x p)); ("y", VNum (Point.y p))].

Definition color_value (c : Color.t) : value :=
  VInstance "Color"
    [("r", VNum (NInt (Color.r c))); ("g", VNum (NInt (Color.g c)));
     ("b", VNum (NInt (Color.b c))); ("a", VNum (NInt (Color.a c)))].

(** The positional argument at index [i], or the parameter's default. *)
Definition arg (args : list num) (i : nat) (default : Z) : num :=
  nth i args (NInt default).

(** [f(args)] for the callables the top-level code calls. *)
Definition call (f : value) (args : list num) : result value :=
  match f with
  | VFunction "getMinimumFontHeight" =>
      match args with
      | [] => Ok (VNum (NInt 1))
      | _ => Raise TypeError
      end
  | VClass "Point" =>
      if (length args <=? 2)%nat
      then Ok (point_value (Point.init (arg args 0 0) (arg args 1 0)))
      else Raise TypeError
  | VClass "Color" =>
      if (length args <=? 4)%nat
      then Ok (color_value
                 (Color.init (arg args 0 0) (arg args 1 0)
                             (arg args 2 0) (arg args 3 1)))
      else Raise TypeError
  | _ => Raise TypeError
  end.

(** [name(args)] with [name] read from the namespace. *)
Definition call_name (name : string) (args : list num)
    (g : gmap string value) : result value :=
  let* f := load_name g name in call f args.

Definition const (v : value) (g : gmap string value) : result value := Ok v.

Definition ZERO_def : stmt := assign "ZERO" (call_name "Point" []).
Definition BLACK_def : stmt := assign "BLACK" (call_name "Color" []).
Definition WHITE_def : stmt :=
  assign "WHITE" (call_name "Color" [NInt 255; NInt 255; NInt 255]).
Definition CLEAR_def : stmt :=
  assign "CLEAR" (call_name "Color" [NInt 0; NInt 0; NInt 0; NInt 0]).

Definition int_ (z : Z) : value := VNum (NInt z).

(** The dict display evaluates its values in order; only the first one
    is not a literal. *)
Definition standardSettings_def : stmt :=
  assign "standardSettings" (fun g =>
    let* mfh := call_name "getMinimumFontHeight" [] g in
    Ok (VDict
          [ ("minimumFontHeight", mfh);
            ("globalFontFamily", VStr "");
            ("menuFontName", VStr "sans-serif");
            ("menuFontSize", int_ 12);
            ("bubbleHelpFontSize", int_ 10);
            ("prompterFontName", VStr "sans-serif");
            ("prompterFontSize", int_ 12);
            ("prompterSliderSize", int_ 10);
            ("handleSize", int_ 15);
            ("scrollBarSize", int_ 9);
            ("mouseScrollAmount", int_ 40);
            ("useSliderForInput", VBool false);
            ("isTouchDevice", VBool false);
            ("rasterizeSVGs", VBool false);
            ("isFlat", VBool false);
            ("grabThreshold", int_ 5);
            ("showHoles", VBool false) ])).

Definition touchScreenSettings_def : stmt :=
  assign "touchScreenSettings" (fun g =>
    let* std := load_name g "standardSettings" in
    let* mfh := getattr std "minimumFontHeight" in
    Ok (VDict
          [ ("minimumFontHeight", mfh);
            ("globalFontFamily", VStr "");
            ("menuFontName", VStr "sans-serif");
            ("menuFontSize", int_ 24);
            ("bubbleHelpFontSize", int_ 18);
            ("prompterFontName", VStr "sans-serif");
            ("prompterFontSize", int_ 24);
            ("prompterSliderSize", int_ 20);
            ("handleSize", int_ 26);
            ("scrollBarSize", int_ 24);
            ("mouseScrollAmount", int_ 40);
            ("useSliderForInput", VBool false);
            ("isTouchDevice", VBool true);
            ("rasterizeSVGs", VBool false);
            ("isFlat", VBool false);
            ("grabThreshold", int_ 5);
            ("showHoles", VBool false) ])).

Definition MorphicPreferences_def : stmt :=
  assign "MorphicPreferences" (fun g => load_name g "standardSettings").

(** The statements before the global settings: imports and constants. *)
Definition prelude : list stmt :=
  [ import "math"; import "re"; import "tkinter"; import "time";
    assign "morphicVersion" (const (VStr "2021-December-06"));
    assign "modules" (const (VDict []));
    assign "useBlurredShadows" (const (VBool true)) ].

Definition globals_defs : list stmt :=
  [ ZERO_def; BLACK_def; WHITE_def; CLEAR_def;
    standardSettings_def; touchScreenSettings_def; MorphicPreferences_def ].

Definition function_defs : list stmt :=
  map def
    [ "nop"; "localize"; "isNil"; "contains"; "detect"; "sizeOf";
      "isString"; "isObject"; "radians"; "degrees"; "fontHeight";
      "isWordChar"; "isURLChar"; "isURL"; "newCanvas";
      "getMinimumFontHeight"; "getDocumentPositionOf"; "copy" ].

Definition class_defs : list stmt :=
  map class [ "Animation"; "Color"; "Point" ].

(** The module body, in source order. *)
Definition module_body : list stmt :=
  prelude ++ globals_defs ++ function_defs ++ class_defs.

(** Running statements in order; an exception stops the run and leaves
    the namespace as the statements before it made it. *)
Fixpoint run (prog : list stmt) (g : gmap string value)
    : gmap string value * option exn :=
  match prog with
  | [] => (g, None)
  | s :: rest =>
      match s g with
      | Ok g' => run rest g'
      | Raise e => (g, Some e)
      end
  end.

(** Importing the module: the body runs over an empty namespace. *)
Definition import_module : gmap string value * option exn := run module_body ∅.

End Toplevel.

(** ** class Animation *)

Module Animation.

(** The pre-defined easing functions need [math.sin], [math.cos] and
    [math.pi]; they are parameters of the model. *)
Section Easings.

Variables math_sin math_cos : Q -> Q.
Variable math_pi : Q.

Definition sin (a : num) : num := NFloat (math_sin (Num.to_float a)).
Definition cos (a : num) : num := NFloat (math_cos (Num.to_float a)).

(** The global function [radians(degrees)]. *)
Definition radians (degrees : num) : result num :=
  Num.truediv (Num.mul degrees (NFloat math_pi)) (NInt 180).

(** The literal [1/2]. *)
Definition half : result num := Num.truediv (NInt 1) (NInt 2).

Definition linear (t : num) : result num := Ok t.

Definition sinusoidal (t : num) : result num :=
  let* a := radians (Num.mul t (NInt 90)) in
  Ok (Num.sub (NInt 1) (cos a)).

Definition quadratic (t : num) : result num :=
  let* h := half in
  if Num.ltb t h then Ok (Num.mul (NInt 2) (Num.pow t 2))
  else Ok (Num.sub
             (Num.sub (Num.mul (NInt 4) t) (Num.mul (NInt 2) (Num.pow t 2)))
             (NInt 1)).

Definition cubic (t : num) : result num :=
  let* h := half in
  if Num.ltb t h then Ok (Num.mul (NInt 4) (Num.pow t 3))
  else Ok (Num.sub
             (Num.sub
                (Num.mul (Num.mul (Num.sub t (NInt 1)) (NInt 4)) (Num.pow t 2))
                (Num.mul (NInt 8) t))
             (NInt 3)).

Definition elastic (t : num) : result num :=
  let* h := half in
  if Num.ltb t h then
    let* u := Num.truediv (sin (Num.mul (NInt 50) t)) (NInt 100) in
    let* v := Num.truediv (sin (Num.mul (NInt 50) t)) (Num.mul (NInt 100) t) in
    Ok (Num.add u v)
  else
    let* u := Num.truediv (sin (Num.mul (NInt 50) t)) (NInt 50) in
    let* v := Num.truediv (sin (Num.mul (NInt 50) t)) (Num.mul (NInt 100) t) in
    Ok (Num.add (Num.sub u v) (NInt 1)).

Definition sine_in (t : num) : result num :=
  let* a := radians (Num.add (NInt 90) (Num.mul t (NInt 90))) in
  Ok (Num.sub (NInt 1) (sin a)).

Definition quad_in (t : num) : result num := Ok (Num.pow t 2).

Definition cubic_in (t : num) : result num := Ok (Num.pow t 3).

Definition elastic_in (t : num) : result num :=
  let* u := Num.truediv (NInt 1) (NInt 25) in
  let* v := Num.truediv (NInt 1) (Num.mul (NInt 25) t) in
  Ok (Num.add (Num.mul (Num.sub u v) (sin (Num.mul (NInt 25) t))) (NInt 1)).

Definition sine_out (t : num) : result num :=
  let* a := radians (Num.mul t (NInt 90)) in
  Ok (sin a).

Definition quad_out (t : num) : result num :=
  Ok (Num.mul t (Num.sub (NInt 2) t)).

Definition elastic_out (t : num) : result num :=
  let* u := Num.truediv t (Num.mul (NInt 25) (Num.sub t (NInt 1))) in
  Ok (Num.mul u (sin (Num.mul (NInt 25) t))).

(** The dictionary [self.easings]. *)
Definition easings : list (string * (num -> result num)) :=
  [ ("linear", linear); ("sinusoidal", sinusoidal);
    ("quadratic", quadratic); ("cubic", cubic); ("elastic", elastic);
    ("sine_in", sine_in); ("quad_in", quad_in); ("cubic_in", cubic_in);
    ("elastic_in", elastic_in);
    ("sine_out", sine_out); ("quad_out", quad_out);
    ("elastic_out", elastic_out) ].

(** The [easing] argument of the constructor. *)
Inductive easing_arg : Type :=
  | ENone
  | EName (name : string)
  | EFunction (f : num -> result num).

(** [self.easings.sinusoidal]: attribute access on the dictionary. *)
Definition easings_sinusoidal : result (num -> result num) :=
  let* _ := getattr (VDict (map (fun kv => (fst kv, VFunction (fst kv))) easings))
                    "sinusoidal" in
  Ok sinusoidal.

(** The part of [__init__] that chooses [self.easing]. *)
Definition select_easing (easing : easing_arg) : result (num -> result num) :=
  match easing with
  | EName name =>
      match assoc name easings with
      | Some f => Ok f
      | None => easings_sinusoidal
      end
  | EFunction f => Ok f
  | ENone => easings_sinusoidal
  end.

End Easings.

(** The data attributes of an Animation. *)
Record attrs : Type := mkAttrs {
  delta : num;
  duration : num;
  endTime : option Z;
  destination : option num;
  isActive : bool
}.

(** [start] first sets [self.endTime]; the getter is called on the
    animation in that state. *)
Definition starting (now : Z) (d : attrs) : attrs :=
  {| delta := delta d; duration := duration d;
     endTime := Some now;
     destination := destination d;
     isActive := isActive d |}.

Definition with_destination (dest : num) (d : attrs) : attrs :=
  {| delta := delta d; duration := duration d;
     endTime := endTime d;
     destination := Some dest;
     isActive := isActive d |}.

Definition with_isActive (b : bool) (d : attrs) : attrs :=
  {| delta := delta d; duration := duration d;
     endTime := endTime d;
     destination := destination d;
     isActive := b |}.

(** The animated state is of some type [Target]; the setter and the
    getter are closures over it. *)
Section Stepping.

Context {Target : Type}.

(** An Animation: its closures and its data attributes. The getter is
    called with the animation itself and reads the target. *)
Record t : Type := mk {
  setter : option num -> Target -> Target;
  getter : attrs -> Target -> num;
  easing : num -> result num;
  onComplete : option (Target -> Target);
  data : attrs
}.

(** What an animation does to the outside: a value handed to the setter,
    or the completion callback invoked. *)
Inductive event : Type :=
  | Set_ (v : option num)
  | Completed.

Record world : Type := mkWorld {
  target : Target;
  log : list event
}.

Definition with_data (a : t) (d : attrs) : t :=
  {| setter := setter a; getter := getter a; easing := easing a;
     onComplete := onComplete a; data := d |}.

Definition call_setter (a : t) (v : option num) (w : world) : world :=
  {| target := setter a v (target w); log := log w ++ [Set_ v] |}.

Definition call_onComplete (f : Target -> Target) (w : world) : world :=
  {| target := f (target w); log := log w ++ [Completed] |}.

(** [Animation.start(self)]; [now] is the clock reading
    [time.time_ns()//1000000]. *)
Definition start (now : Z) (a : t) (w : world) : t :=
  let d1 := starting now (data a) in
  let dest := Num.add (getter a d1 (target w)) (delta d1) in
  with_data a (with_isActive true (with_destination dest d1)).

(** The branch of [step] taken once the clock is past [endTime]. *)
Definition complete (a : t) (w : world) : t * world :=
  let w1 := call_setter a (destination (data a)) w in
  let a1 := with_data a (with_isActive false (data a)) in
  match onComplete a with
  | Some f => (a1, call_onComplete f w1)
  | None => (a1, w1)
  end.

(** [Animation.step(self)] *)
Definition step (now : Z) (a : t) (w : world) : result (t * world) :=
  if negb (isActive (data a)) then Ok (a, w)
  else
    match endTime (data a) with
    | None => Raise TypeError
    | Some e =>
        if (now >? e)%Z then Ok (complete a w)
        else
          let* frac := Num.truediv (NInt (e - now)) (duration (data a)) in
          let* k := easing a frac in
          match destination (data a) with
          | None => Raise TypeError
          | Some dest =>
              Ok (a, call_setter a (Some (Num.sub dest (Num.mul (delta (data a)) k))) w)
          end
    end.

(** Successive [step()] calls, one per clock reading. *)
Fixpoint steps (clock : list Z) (a : t) (w : world) : result (t * world) :=
  match clock with
  | [] => Ok (a, w)
  | now :: rest =>
      let* (a', w') := step now a w in
      steps rest a' w'
  end.

Definition completions (w : world) : nat :=
  length (List.filter (fun e => match e with Completed => true | _ => false end) (log w)).

End Stepping.

Arguments t : clear implicits.
Arguments world : clear implicits.

(** [Animation.__init__(self, setter, getter, delta=0, duration=0,
    easing=None, onComplete=None)], run at clock reading [now]. *)
Definition init (math_sin math_cos : Q -> Q) (math_pi : Q) {Target : Type}
    (setter0 : option num -> Target -> Target)
    (getter0 : attrs -> Target -> num)
    (delta0 duration0 : num) (easing0 : easing_arg)
    (onComplete0 : option (Target -> Target))
    (now : Z) (w : world Target) : result (t Target) :=
  let* e := select_easing math_sin math_cos math_pi easing0 in
  Ok (start now
        {| setter := setter0; getter := getter0; easing := e;
           onComplete := onComplete0;
           data := {| delta := delta0; duration := duration0;
                      endTime := None; destination := None;
                      isActive := false |} |}
        w).

End Animation.

(** ** The node tree *)

Module Node.

(** Modelled from the spec: the Node tree of sections 3 and 4.1. The
    source file ends after class Point and defines no Node class, so
    [addChild] and [remove] follow the spec's contract. Nodes of a
    collection of [size] nodes are numbered from 0; each has a parent
    back-reference and an ordered child sequence (rightmost is topmost).
    Damage marking and the invalidation of weak references are left out:
    they do not change the shape of the tree. *)
Record tree : Type := mk {
  size : nat;
  parent : nat -> option nat;
  children : nat -> list nat
}.

(** Modelled from the spec: a collection of detached nodes. *)
Definition detached (n : nat) : tree :=
  {| size := n; parent := fun _ => None; children := fun _ => [] |}.

(** Modelled from the spec: the explicit check of 4.1, "child is an
    ancestor of parent", made by following parent references from [n]
    upwards for at most [fuel] steps; a node counts among its own
    ancestors, as attaching a node to itself would also make a cycle. *)
Fixpoint isAncestor (fuel : nat) (t : tree) (a n : nat) : bool :=
  if (a =? n)%nat then true
  else match fuel with
       | O => false
       | S fuel' =>
           match parent t n with
           | None => false
           | Some p => isAncestor fuel' t a p
           end
       end.

(** Modelled from the spec: [remove(node)] detaches the node from its
    parent's child sequence. *)
Definition remove (n : nat) (t : tree) : tree :=
  match parent t n with
  | None => t
  | Some p =>
      {| size := size t;
         parent := <[n := None]> (parent t);
         children := <[p := filter (fun c => c ≠ n) (children t p)]> (children t) |}
  end.

(** Modelled from the spec: [addChild(parent, child, atBack=false)]
    fails silently if the child is an ancestor of the parent; otherwise
    it detaches the child from any existing parent and appends it to the
    parent's child sequence, at the topmost end unless [atBack]. *)
Definition addChild (p c : nat) (atBack : bool) (t : tree) : tree :=
  if negb ((p <? size t)%nat && (c <? size t)%nat) then t
  else if isAncestor (size t) t c p then t
  else
    let t1 := remove c t in
    {| size := size t1;
       parent := <[c := Some p]> (parent t1);
       children := <[p := if atBack then c :: children t1 p
                          else children t1 p ++ [c]]> (children t1) |}.

Inductive op : Type :=
  | AddChild (p c : nat) (atBack : bool)
  | Remove (n : nat).

Definition apply (o : op) (t : tree) : tree :=
  match o with
  | AddChild p c atBack => addChild p c atBack t
  | Remove n => remove n t
  end.

Definition run (ops : list op) (t : tree) : tree :=
  fold_left (fun t o => apply o t) ops t.






End Node.

(** ** Point: comparison, polar coordinates, functions *)

Module PointMore.

Import Point.

(** [Point.__eq__], [__lt__], [__gt__], [__ge__], [__le__]: anything
    that is not a Point compares as [False]. *)
Definition eq (self : t) (other : operand) : bool :=
  match other with
  | OPoint o => Num.eqb (x self) (x o) && Num.eqb (y self) (y o)
  | ONum _ => false
  end.

Definition lt (self : t) (other : operand) : bool :=
  match other with
  | OPoint o => Num.ltb (x self) (x o) && Num.ltb (y self) (y o)
  | ONum _ => false
  end.

Definition gt (self : t) (other : operand) : bool :=
  match other with
  | OPoint o => Num.ltb (x o) (x self) && Num.ltb (y o) (y self)
  | ONum _ => false
  end.

Definition ge (self : t) (other : operand) : bool :=
  match other with
  | OPoint o => Num.leb (x o) (x self) && Num.leb (y o) (y self)
  | ONum _ => false
  end.

Definition le (self : t) (other : operand) : bool :=
  match other with
  | OPoint o => Num.leb (x self) (x o) && Num.leb (y self) (y o)
  | ONum _ => false
  end.

(** [__cross__] (also bound as [cross]); [None] stands for the value
    [NotImplemented], which is returned, not raised. *)
Definition cross (self : t) (other : operand) : result (option num) :=
  match other with
  | OPoint o =>
      let* m := mirror o None in
      let stom := mul self (OPoint m) in
      Ok (Some (Num.sub (x stom) (y stom)))
  | ONum _ => Ok None
  end.

Section Polar.

Variables math_sin math_cos math_sqrt math_atan : Q -> Q.
Variable math_pi : Q.

(** [math.sqrt(a)]; a negative argument raises ValueError("math domain
    error"), recorded here as an exception with that message. *)
Definition sqrt (a : num) : result num :=
  if Num.ltb a (NInt 0) then Raise (Exception "math domain error")
  else Ok (NFloat (math_sqrt (Num.to_float a))).

Definition atan (a : num) : num := NFloat (math_atan (Num.to_float a)).

(** The global function [degrees(radians)]. *)
Definition degrees (radians : num) : result num :=
  Num.truediv (Num.mul radians (NInt 180)) (NFloat math_pi).

(** The property [r]. *)
Definition r (self : t) : result num := sqrt (dot self self).

(** The property [theta]. *)
Definition theta (self : t) : result num :=
  if Num.eqb (x self) (NInt 0) then
    if Num.eqb (y self) (NInt 0) then Ok (NInt 0) else Ok (NInt 90)
  else
    let* q := Num.truediv (y self) (x self) in
    degrees (atan q).

(** [Point.theta_r_to_x_y(cls, theta, r)] *)
Definition theta_r_to_x_y (theta0 r0 : num) : t :=
  mul (init (Animation.cos math_cos theta0) (Animation.sin math_sin theta0))
      (ONum r0).

(** [distanceTo(self, other)]: [other - self] is [other.__sub__(self)]
    for a Point and [self.__rsub__(other)] for a number. *)
Definition distanceTo (self : t) (other : operand) : result num :=
  match other with
  | OPoint o => r (sub o (OPoint self))
  | ONum n => r (rsub self (ONum n))
  end.

(** [rotate(self, amount)] *)
Definition rotate (self : t) (amount : num) : result t :=
  let* th := theta self in
  let* rr := r self in
  Ok (theta_r_to_x_y (Num.add th amount) rr).

(** The [while] loop of [distanceAngle]; [None] when [fuel] iterations
    do not end it. *)
Fixpoint normalize (fuel : nat) (deg : num) : option num :=
  if negb (Num.ltb (NInt (-270)) deg && Num.ltb deg (NInt 270)) then
    match fuel with
    | O => None
    | S fuel' =>
        if Num.ltb (NInt 270) deg then normalize fuel' (Num.sub deg (NInt 360))
        else if Num.ltb deg (NInt (-270)) then normalize fuel' (Num.add deg (NInt 360))
        else normalize fuel' deg
    end
  else Some deg.

(** [distanceAngle(self, dist, angle)]; [None] when the loop has not
    ended within [fuel] iterations. *)
Definition distanceAngle (fuel : nat) (self : t) (dist angle : num)
    : option (result t) :=
  match normalize fuel angle with
  | None => None
  | Some deg =>
      Some
        (if Num.leb (NInt (-90)) deg && Num.leb deg (NInt 90) then
           let* a := Animation.radians math_pi deg in
           let x0 := Num.mul (Animation.sin math_sin a) dist in
           let* y0 := r (init dist x0) in
           Ok (init (Num.add x0 (x self)) (Num.sub y0 (y self)))
         else
           let* a := Animation.radians math_pi (Num.sub (NInt 180) deg) in
           let x0 := Num.mul (Animation.sin math_sin a) dist in
           let* y0 := r (init dist x0) in
           Ok (init (Num.add x0 (x self)) (Num.add y0 (y self))))
  end.

End Polar.

(** A point whose coordinates are ints of magnitude at most [bound]. *)
Definition within (bound : Z) (p : t) : Prop :=
  exists u v, p = mk (NInt u) (NInt v) /\
              (- bound <= u <= bound)%Z /\ (- bound <= v <= bound)%Z.

End PointMore.

(** ** Color: representation, comparison, conversions, mixing *)

Module ColorMore.

Import Color.

(** [a + b] where [a] is a string: only a string can be appended. *)
Definition str_add (s : string) (v : value) : result string :=
  match v with
  | VStr s' => Ok (String.append s s')
  | _ => Raise TypeError
  end.

(** [Color.__repr__]: the channels are added to the text as they are. *)
Definition repr (self : t) : result string :=
  let* s1 := str_add "Color(" (VNum (NInt (r self))) in
  let* s2 := str_add s1 (VStr ", ") in
  let* s3 := str_add s2 (VNum (NInt (g self))) in
  let* s4 := str_add s3 (VStr ", ") in
  let* s5 := str_add s4 (VNum (NInt (b self))) in
  let* s6 := str_add s5 (VStr ", ") in
  let* s7 := str_add s6 (VNum (NInt (a self))) in
  str_add s7 (VStr ")").

(** [Color.__eq__]; [None] is an argument that is not a Color. *)
Definition eq (self : t) (other : option t) : bool :=
  match other with
  | Some o =>
      (r self =? r o)%Z && (g self =? g o)%Z && (b self =? b o)%Z && (a self =? a o)%Z
  | None => false
  end.

(** [isCloseTo(self, other, tolerance=10)] *)
Definition isCloseTo (self : t) (other : option t) (tolerance : num) : result bool :=
  let* k := Num.truediv (NInt 64) (NInt 25) in
  let threshold := Num.mul k tolerance in
  let dist (u v : Z) : num := Num.abs (Num.sub (NInt u) (NInt v)) in
  match other with
  | Some o =>
      Ok (Num.ltb (dist (r self) (r o)) threshold &&
          Num.ltb (dist (g self) (g o)) threshold &&
          Num.ltb (dist (b self) (b o)) threshold &&
          Num.ltb (dist (a self) (a o)) threshold)
  | None => Ok false
  end.

(** [Color.hsva_rgba(cls, h=0, s=0, v=0, a=1)] *)
Definition hsva_rgba (h s v a0 : num) : result (num * num * num * num) :=
  let i := Num.floor (Num.mul h (NInt 6)) in
  let f := Num.sub (Num.mul h (NInt 6)) i in
  let p := Num.mul v (Num.sub (NInt 1) s) in
  let q := Num.mul v (Num.sub (NInt 1) (Num.mul f s)) in
  let t0 := Num.mul v (Num.sub (NInt 1) (Num.mul (Num.sub (NInt 1) f) s)) in
  let* imod6 := Num.mod_ i (NInt 6) in
  let* (r0, g0, b0) :=
    if Num.eqb imod6 (NInt 0) then Ok (v, t0, p)
    else if Num.eqb imod6 (NInt 1) then Ok (q, v, p)
    else if Num.eqb imod6 (NInt 2) then Ok (p, v, t0)
    else if Num.eqb imod6 (NInt 3) then Ok (p, q, v)
    else if Num.eqb imod6 (NInt 4) then Ok (t0, p, v)
    else if Num.eqb imod6 (NInt 5) then Ok (v, p, q)
    else Raise (Exception never_raised) in
  Ok (Num.mul r0 (NInt 255), Num.mul g0 (NInt 255), Num.mul b0 (NInt 255), a0).

(** Reading a local variable that no branch has assigned. *)
Definition unbound_local (name : string) : result num :=
  Raise (NameError name).

(** [Color.rgba_hsla(cls, r=0, g=0, b=0, a=1)] *)
Definition rgba_hsla (r0 g0 b0 a0 : num) : result (num * num * num * num) :=
  let* rr := Num.truediv r0 (NInt 255) in
  let* gg := Num.truediv g0 (NInt 255) in
  let* bb := Num.truediv b0 (NInt 255) in
  let max_ := Num.max (Num.max rr gg) bb in
  let min_ := Num.min (Num.min rr gg) bb in
  let* l := Num.truediv (Num.add max_ min_) (NInt 2) in
  let* (h, s) :=
    if Num.eqb max_ min_ then Ok (NInt 0, NInt 0)
    else
      let d := Num.sub max_ min_ in
      let* hf := Animation.half in
      let* s :=
        if Num.ltb hf l
        then Num.truediv d (Num.sub (Num.sub (NInt 2) max_) min_)
        else Num.truediv d (Num.add max_ min_) in
      let* h1 :=
        if Num.eqb max_ rr then
          let* q := Num.truediv (Num.sub gg bb) d in
          Ok (Num.add q (if Num.ltb gg bb then NInt 6 else NInt 0))
        else if Num.eqb max_ gg then
          let* q := Num.truediv (Num.sub bb rr) d in
          Ok (Num.add q (NInt 2))
        else if Num.eqb max_ bb then
          let* q := Num.truediv (Num.sub rr gg) d in
          Ok (Num.add q (NInt 4))
        else unbound_local "h" in
      let* h := Num.truediv h1 (NInt 6) in
      Ok (h, s) in
  Ok (h, s, l, a0).

(** The local function [hue_rgb(p, q, t)] of [hsla_rgba]. *)
Definition hue_rgb (p q t0 : num) : result num :=
  let t1 := if Num.ltb t0 (NInt 0) then Num.add t0 (NInt 1) else t0 in
  let t2 := if Num.ltb (NInt 1) t1 then Num.sub t1 (NInt 1) else t1 in
  let* sixth := Num.truediv (NInt 1) (NInt 6) in
  let* hf := Animation.half in
  let* two_thirds := Num.truediv (NInt 2) (NInt 3) in
  if Num.ltb t2 sixth then
    Ok (Num.add p (Num.mul (Num.mul (Num.sub q p) (NInt 6)) t2))
  else if Num.ltb t2 hf then Ok q
  else if Num.ltb t2 two_thirds then
    Ok (Num.add p (Num.mul (Num.mul (Num.sub q p) (Num.sub two_thirds t2)) (NInt 6)))
  else Ok p.

(** [Color.hsla_rgba(cls, h=0, s=0, l=0, a=1)] *)
Definition hsla_rgba (h s l a0 : num) : result (num * num * num * num) :=
  let* (r0, g0, b0) :=
    if Num.eqb s (NInt 0) then Ok (NInt 1, NInt 1, NInt 1)
    else
      let* hf := Animation.half in
      let q := if Num.ltb l hf then Num.mul l (Num.add (NInt 1) s)
               else Num.sub (Num.add l s) (Num.mul l s) in
      let p := Num.sub (Num.mul (NInt 2) l) q in
      let* third := Num.truediv (NInt 1) (NInt 3) in
      let* r1 := hue_rgb p q (Num.add h third) in
      let* g1 := hue_rgb p q h in
      let* b1 := hue_rgb p q (Num.sub h third) in
      Ok (r1, g1, b1) in
  Ok (Num.mul r0 (NInt 255), Num.mul g0 (NInt 255), Num.mul b0 (NInt 255), a0).

(** [mixed(self, proportion, otherColor)] *)
Definition mixed (self : t) (proportion : num) (otherColor : option t) : t :=
  match otherColor with
  | None => self
  | Some o =>
      let frac1 := Num.min (Num.max proportion (NInt 0)) (NInt 1) in
      let frac2 := Num.sub (NInt 1) frac1 in
      let mix (u v : Z) : num :=
        Num.add (Num.mul (NInt u) frac1) (Num.mul (NInt v) frac2) in
      init (mix (r self) (r o)) (mix (g self) (g o))
           (mix (b self) (b o)) (mix (a self) (a o))
  end.





(** [dansDarker(self, percent=16)] *)
Definition dansDarker (self : t) (percent : num) : result t :=
  let* (h, s, v, a0) := hsva_of self in
  let* pc := Num.truediv percent (NInt 100) in
  let v' := Num.max (Num.sub v pc) (NInt 0) in
  let* (r1, g1, b1, a1) := hsva_rgba h s v' a0 in
  Ok (init r1 g1 b1 a1).

(** [inverted(self)] *)
Definition inverted (self : t) : t :=
  init (NInt (255 - r self)) (NInt (255 - g self))
       (NInt (255 - b self)) (NInt (1 - a self)).

(** [solid(self)] *)
Definition solid (self : t) : t :=
  init (NInt (r self)) (NInt (g self)) (NInt (b self)) (NInt 1).

(** A color whose four channels lie in 0..255. *)
Definition channels_in_range (c : t) : Prop :=
  (0 <= r c <= 255)%Z /\ (0 <= g c <= 255)%Z /\
  (0 <= b c <= 255)%Z /\ (0 <= a c <= 255)%Z.


End ColorMore.

(** ** Global functions *)

Module Globals.

(** [detect(list, predicate)]: the list holds Python values, [None]
    among them, and [None] is also what is returned when nothing
    matches. *)
Fixpoint detect (list : list value) (predicate : value -> bool) : value :=
  match list with
  | [] => VNone
  | i :: rest => if predicate i then i else detect rest predicate
  end.

(** [contains(list, element)] for numbers. *)
Definition contains (list : list num) (element : num) : bool :=
  existsb (fun i => Num.eqb i element) list.

(** [fontHeight(height)], run over the module's namespace. *)
Definition fontHeight (g : gmap string value) (height : num) : result num :=
  let* prefs := load_name g "MorphicPreferences" in
  let* m := getattr prefs "minimumFontHeight" in
  match m with
  | VNum mfh =>
      let minheight := Num.max height mfh in
      Ok (Num.mul minheight (NFloat (6 # 5)))
  | _ => Raise TypeError
  end.

End Globals.

(** ** Sample objects used to run the definitions *)

Module Sample.

(** The animated state is one numeric cell. *)
Definition cell_setter (v : option num) (old : num) : num :=
  match v with
  | Some n => n
  | None => old
  end.

Definition cell_getter (self : Animation.attrs) (cell : num) : num := cell.

(** Polynomial stand-ins for [math.sin] and [math.cos], and a rational
    stand-in for [math.pi]. *)
Definition sin (x : Q) : Q := x - x * x * x / 6.
Definition cos (x : Q) : Q := 1 - x * x / 2.
Definition pi : Q := 355 # 113.

(** A stand-in for [math.sqrt]: one Newton step from 1. *)
Definition sqrt (x : Q) : Q := (1 + x) / 2.

(** A polynomial stand-in for [math.atan]. *)
Definition atan (x : Q) : Q := x - x * x * x / 3.

Definition world0 : Animation.world num :=
  {| Animation.target := NInt 0; Animation.log := [] |}.

(** [Animation(setter, getter, 100, 1000, easing, callback)] built at
    clock reading 5000 over a cell holding 0. *)
Definition glide (easing : Animation.easing_arg) : result (Animation.t num) :=
  Animation.init sin cos pi cell_setter cell_getter
    (NInt 100) (NInt 1000) easing (Some (fun cell => cell)) 5000 world0.

(** A not yet started animation with the linear easing. *)
Definition idle : Animation.t num :=
  {| Animation.setter := cell_setter; Animation.getter := cell_getter;
     Animation.easing := Animation.linear;
     Animation.onComplete := Some (fun cell => cell);
     Animation.data :=
       {| Animation.delta := NInt 100; Animation.duration := NInt 1000;
          Animation.endTime := None; Animation.destination := None;
          Animation.isActive := false |} |}.

End Sample.

(** * Properties *)

(** ** Point *)

Lemma Point_init_integral (x0 y0 : num) : Point.integral (Point.init x0 y0).
Proof. split; reflexivity. Qed.

Lemma Point_lift2_integral (f : num -> num -> result num) (a b c d : num) (p : Point.t) :
  Point.lift2 f a b c d = Ok p -> Point.integral p.
Proof.
  unfold Point.lift2, rbind.
  destruct (f a b) as [u|e]; [|discriminate].
  destruct (f c d) as [v|e]; [|discriminate].
  intros H. injection H as <-. apply Point_init_integral.
Qed.

(** [mirror] never returns: the tuple negation raises first. *)
Lemma Point_mirror_raises (self : Point.t) (axis : option Point.operand) :
  Point.mirror self axis = Raise TypeError.
Proof. reflexivity. Qed.

Lemma Point_call_integral (self : Point.t) (m : Point.method) (p : Point.t) :
  Point.integral self -> Point.call self m = Ok p -> Point.integral p.
Proof.
  intros Hself.
  destruct m as [ | o | o | nd | | | ax | | | o | o | o | o | o | o
                  | o | o | o | o | o | o | o | o ]; cbn [Point.call];
    try (rewrite Point_mirror_raises; discriminate);
    try (destruct o; cbn; intros H; injection H as <-;
         first [ apply Point_init_integral | exact Hself ]);
    try (intros H; injection H as <-; apply Point_init_integral);
    try (destruct o; cbn; apply Point_lift2_integral).
Qed.

(** C10: every Point obtained from the constructor and the
    Point-producing methods (copy, max, min, rounding, abs, negation,
    mirror, floor, ceil, the arithmetic and reflected operators, scale,
    translate) has integer coordinates. *)
Theorem Point_reachable_integral (p : Point.t) :
  Point.reachable p -> Point.integral p.
Proof.
  induction 1 as [x0 y0 | self m p Hself IH Hargs _ Hcall].
  - apply Point_init_integral.
  - eapply Point_call_integral; eassumption.
Qed.

Lemma Point_reachable_integral_witness :
  let p := Point.init (NFloat (3 # 2)) (NInt 2) in
  let q := Point.init (NInt 7) (NFloat (-5 # 2)) in
  Point.reachable (Point.add p (Point.OPoint q)) /\
  Point.integral (Point.add p (Point.OPoint q)).
Proof.
  intros p q.
  assert (Hr : Point.reachable (Point.add p (Point.OPoint q))).
  { apply (Point.reach_call p (Point.Add (Point.OPoint q))).
    - apply Point.reach_init.
    - intros o Ho. injection Ho as <-. apply Point.reach_init.
    - reflexivity. }
  split; [exact Hr | exact (Point_reachable_integral _ Hr)].
Defined.

(** ** Number comparisons *)

Lemma Num_ltb_lt (a b : num) :
  Num.ltb a b = true <-> (Num.to_float a < Num.to_float b)%Q.
Proof.
  unfold Num.ltb. rewrite negb_true_iff.
  split.
  - intros H. apply Qnot_le_lt. intros Hle.
    apply Qle_bool_iff in Hle. congruence.
  - intros H. destruct (Qle_bool (Num.to_float b) (Num.to_float a)) eqn:E; [|reflexivity].
    apply Qle_bool_iff in E. exfalso. exact (Qlt_not_le _ _ H E).
Qed.

Lemma Num_ltb_false (a b : num) :
  (Num.to_float b <= Num.to_float a)%Q -> Num.ltb a b = false.
Proof.
  intros H. destruct (Num.ltb a b) eqn:E; [|reflexivity].
  apply Num_ltb_lt in E. exfalso. exact (Qlt_not_le _ _ E H).
Qed.

Lemma Num_eqb_false (a b : num) :
  ~ (Num.to_float a == Num.to_float b)%Q -> Num.eqb a b = false.
Proof.
  intros H. unfold Num.eqb.
  destruct (Qeq_bool (Num.to_float a) (Num.to_float b)) eqn:E; [|reflexivity].
  apply Qeq_bool_iff in E. contradiction.
Qed.

Lemma Num_to_float_mkfloat (q : Q) : (Num.to_float (Num.mkfloat q) == q)%Q.
Proof. apply Qred_correct. Qed.

(** Dividing a channel by 255 never raises and keeps the order. *)
Lemma channel_fraction (z : Z) :
  Num.truediv (NInt z) (NInt 255) = Ok (Num.mkfloat (inject_Z z / 255)).
Proof. reflexivity. Qed.

Lemma channel_fraction_lt (x y : Z) :
  (x < y)%Z ->
  (Num.to_float (Num.mkfloat (inject_Z x / 255)) <
   Num.to_float (Num.mkfloat (inject_Z y / 255)))%Q.
Proof.
  intros H. rewrite !Num_to_float_mkfloat.
  unfold Qlt, Qdiv, Qmult, Qinv, inject_Z; simpl. lia.
Qed.

(** ** Color *)

(** The hue branches of [rgba_hsva] on fractions where red is the strict
    maximum: none of the three tests succeeds. *)
Lemma rgba_hsva_branches (rr gg bb : num) :
  Num.ltb gg rr = true -> Num.ltb bb rr = true ->
  Num.max (Num.max rr gg) bb = rr /\
  Num.eqb rr (Num.min (Num.min rr gg) bb) = false /\
  py_eq (VBuiltin "max") (VNum rr) = false /\
  Num.eqb rr gg = false /\
  Num.eqb rr bb = false.
Proof.
  intros Hg Hb.
  pose proof (proj1 (Num_ltb_lt _ _) Hg) as Hg'.
  pose proof (proj1 (Num_ltb_lt _ _) Hb) as Hb'.
  assert (Hmax1 : Num.max rr gg = rr).
  { unfold Num.max. rewrite Num_ltb_false; [reflexivity | apply Qlt_le_weak, Hg']. }
  assert (Hne_g : Num.eqb rr gg = false).
  { apply Num_eqb_false. intros E. rewrite E in Hg'. exact (Qlt_irrefl _ Hg'). }
  assert (Hne_b : Num.eqb rr bb = false).
  { apply Num_eqb_false. intros E. rewrite E in Hb'. exact (Qlt_irrefl _ Hb'). }
  repeat split; try assumption.
  - rewrite Hmax1. unfold Num.max.
    rewrite Num_ltb_false; [reflexivity | apply Qlt_le_weak, Hb'].
  - unfold Num.min. rewrite Hg.
    destruct (Num.ltb bb gg); assumption.
Qed.

(** C9: for a color with channels in 0..255 whose red channel is the
    strict maximum, [rgba_hsva] raises its "should never be raised"
    exception: the first hue test compares the builtin function [max],
    not [max_], with the red fraction. (The range is that of a color
    channel; far outside it binary floating point can give two channels
    the same fraction, or overflow.) *)
Theorem rgba_hsva_red_maximum_raises (r g b : Z) (a : num) :
  (0 <= r <= 255)%Z -> (0 <= g <= 255)%Z -> (0 <= b <= 255)%Z ->
  (g < r)%Z -> (b < r)%Z ->
  Color.rgba_hsva (NInt r) (NInt g) (NInt b) a =
  Raise (Exception Color.never_raised).
Proof.
  intros _ _ _ Hg Hb.
  unfold Color.rgba_hsva. rewrite !channel_fraction. cbn [rbind].
  set (rr := Num.mkfloat (inject_Z r / 255)).
  set (gg := Num.mkfloat (inject_Z g / 255)).
  set (bb := Num.mkfloat (inject_Z b / 255)).
  assert (Hgg : Num.ltb gg rr = true)
    by (apply Num_ltb_lt, channel_fraction_lt, Hg).
  assert (Hbb : Num.ltb bb rr = true)
    by (apply Num_ltb_lt, channel_fraction_lt, Hb).
  destruct (rgba_hsva_branches rr gg bb Hgg Hbb) as (Hmax & Hmin & Hfn & Heg & Heb).
  rewrite Hmax, Hmin, Hfn, Heg, Heb.
  destruct (Num.eqb rr (NInt 0)) eqn:Hz; [reflexivity|].
  unfold Num.truediv, Num.is_zero.
  change (Qeq_bool (Num.to_float rr) 0) with (Num.eqb rr (NInt 0)).
  rewrite Hz. reflexivity.
Qed.

Lemma rgba_hsva_red_maximum_raises_witness :
  (0 <= 255 <= 255)%Z /\ (0 <= 0 <= 255)%Z /\ (0 < 255)%Z /\
  Color.hsva_of (Color.init (NInt 255) (NInt 0) (NInt 0) (NInt 1)) =
  Raise (Exception Color.never_raised).
Proof.
  split; [lia | split; [lia | split; [lia |]]].
  apply (rgba_hsva_red_maximum_raises 255 0 0 (NInt 1)); lia.
Defined.

(** ** The module's start-up *)

(** A name that is neither bound in the namespace nor a builtin cannot
    be read. *)
Lemma load_name_unbound (g : gmap string value) (name : string) :
  g !! name = None -> is_builtin name = false ->
  load_name g name = Raise (NameError name).
Proof. intros Hg Hb. unfold load_name. rewrite Hg, Hb. reflexivity. Qed.

Lemma ZERO_def_unbound (g : gmap string value) :
  g !! "Point" = None -> Toplevel.ZERO_def g = Raise (NameError "Point").
Proof.
  intros H. unfold Toplevel.ZERO_def, Toplevel.assign, Toplevel.call_name.
  rewrite load_name_unbound; [reflexivity | exact H | reflexivity].
Qed.

Lemma Color_defs_unbound (g : gmap string value) :
  g !! "Color" = None ->
  Toplevel.BLACK_def g = Raise (NameError "Color") /\
  Toplevel.WHITE_def g = Raise (NameError "Color") /\
  Toplevel.CLEAR_def g = Raise (NameError "Color").
Proof.
  intros H.
  unfold Toplevel.BLACK_def, Toplevel.WHITE_def, Toplevel.CLEAR_def,
    Toplevel.assign, Toplevel.call_name.
  rewrite load_name_unbound; [repeat split | exact H | reflexivity].
Qed.

Lemma standardSettings_def_unbound (g : gmap string value) :
  g !! "getMinimumFontHeight" = None ->
  Toplevel.standardSettings_def g = Raise (NameError "getMinimumFontHeight").
Proof.
  intros H. unfold Toplevel.standardSettings_def, Toplevel.assign, Toplevel.call_name.
  rewrite load_name_unbound; [reflexivity | exact H | reflexivity].
Qed.

(** Whatever dict [standardSettings] is bound to, reading
    [standardSettings.minimumFontHeight] raises. *)
Lemma touchScreenSettings_def_attribute (g : gmap string value)
    (items : list (string * value)) :
  g !! "standardSettings" = Some (VDict items) ->
  Toplevel.touchScreenSettings_def g = Raise (AttributeError "minimumFontHeight").
Proof.
  intros H. unfold Toplevel.touchScreenSettings_def, Toplevel.assign, load_name.
  rewrite H. reflexivity.
Qed.

(** C8: run in source order, the module body stops at [ZERO = Point()]
    with a NameError, having bound only the imports and the three leading
    constants; each of the definitions of ZERO, BLACK, WHITE, CLEAR and
    standardSettings reads a name (Point, Color, getMinimumFontHeight)
    that no earlier statement binds, and touchScreenSettings reads
    minimumFontHeight as an attribute of the dict. *)
Theorem import_module_raises_NameError :
  let g0 := fst (Toplevel.run Toplevel.prelude ∅) in
  Toplevel.import_module = (g0, Some (NameError "Point")) /\
  Forall (fun name => g0 !! name = None)
    [ "ZERO"; "BLACK"; "WHITE"; "CLEAR"; "standardSettings";
      "touchScreenSettings"; "MorphicPreferences"; "getMinimumFontHeight";
      "Animation"; "Color"; "Point" ] /\
  Toplevel.ZERO_def g0 = Raise (NameError "Point") /\
  Toplevel.BLACK_def g0 = Raise (NameError "Color") /\
  Toplevel.WHITE_def g0 = Raise (NameError "Color") /\
  Toplevel.CLEAR_def g0 = Raise (NameError "Color") /\
  Toplevel.standardSettings_def g0 = Raise (NameError "getMinimumFontHeight") /\
  Toplevel.touchScreenSettings_def
    (<["standardSettings" := VDict [("minimumFontHeight", VNum (NInt 1))]]> g0) =
  Raise (AttributeError "minimumFontHeight").
Proof.
  intros g0.
  assert (Hnone : Forall (fun name => g0 !! name = None)
            [ "ZERO"; "BLACK"; "WHITE"; "CLEAR"; "standardSettings";
              "touchScreenSettings"; "MorphicPreferences"; "getMinimumFontHeight";
              "Animation"; "Color"; "Point" ]).
  { repeat constructor; vm_compute; reflexivity. }
  split; [vm_compute; reflexivity|].
  split; [exact Hnone|].
  split; [apply ZERO_def_unbound; vm_compute; reflexivity|].
  destruct (Color_defs_unbound g0) as (Hb & Hw & Hc); [vm_compute; reflexivity|].
  split; [exact Hb|]. split; [exact Hw|]. split; [exact Hc|].
  split; [apply standardSettings_def_unbound; vm_compute; reflexivity|].
  eapply touchScreenSettings_def_attribute. apply lookup_insert_eq.
Qed.

(** C7 (the code at the failing input): in source order the standard
    profile raises NameError; and even with every function and class
    bound beforehand, so that the standard profile evaluates to a dict,
    the touch-screen profile raises AttributeError and the run binds
    neither [touchScreenSettings] nor [MorphicPreferences]. *)
Theorem settings_profiles_raise :
  snd (Toplevel.run (Toplevel.prelude ++ [Toplevel.standardSettings_def]) ∅) =
    Some (NameError "getMinimumFontHeight") /\
  let hoisted := Toplevel.prelude ++ Toplevel.function_defs ++ Toplevel.class_defs in
  let out := Toplevel.run (hoisted ++ Toplevel.globals_defs) ∅ in
  snd out = Some (AttributeError "minimumFontHeight") /\
  (exists items, fst out !! "standardSettings" = Some (VDict items) /\
                 Value.assoc "isTouchDevice" items = Some (VBool false)) /\
  fst out !! "touchScreenSettings" = None /\
  fst out !! "MorphicPreferences" = None.
Proof.
  split; [vm_compute; reflexivity|].
  cbv zeta.
  split; [vm_compute; reflexivity|].
  split; [|split; vm_compute; reflexivity].
  eexists. split; vm_compute; reflexivity.
Qed.

(** ** Animation *)

Section AnimationFacts.

Variables math_sin math_cos : Q -> Q.
Variable math_pi : Q.
Context {Target : Type}.

Implicit Types (a : Animation.t Target) (w : Animation.world Target).

Lemma start_data (now : Z) a w :
  Animation.data (Animation.start now a w) =
  {| Animation.delta := Animation.delta (Animation.data a);
     Animation.duration := Animation.duration (Animation.data a);
     Animation.endTime := Some now;
     Animation.destination :=
       Some (Num.add (Animation.getter a (Animation.starting now (Animation.data a))
                        (Animation.target w))
                     (Animation.delta (Animation.data a)));
     Animation.isActive := true |}.
Proof. reflexivity. Qed.

(** An easing name that is not a key of [self.easings], or no easing at
    all, makes the constructor read [self.easings.sinusoidal]. *)
Lemma select_easing_default (easing : Animation.easing_arg) :
  match easing with
  | Animation.ENone => True
  | Animation.EName name =>
      assoc name (Animation.easings math_sin math_cos math_pi) = None
  | Animation.EFunction _ => False
  end ->
  Animation.select_easing math_sin math_cos math_pi easing =
  Raise (AttributeError "sinusoidal").
Proof.
  destruct easing as [|name|f]; cbn [Animation.select_easing].
  - reflexivity.
  - intros ->. reflexivity.
  - contradiction.
Qed.

(** A key of [self.easings], or a function, is accepted. *)
Lemma select_easing_known (easing : Animation.easing_arg) (f : num -> result num) :
  match easing with
  | Animation.ENone => False
  | Animation.EName name =>
      assoc name (Animation.easings math_sin math_cos math_pi) = Some f
  | Animation.EFunction f' => f' = f
  end ->
  Animation.select_easing math_sin math_cos math_pi easing = Ok f.
Proof.
  destruct easing as [|name|f']; cbn [Animation.select_easing].
  - contradiction.
  - intros ->. reflexivity.
  - intros ->. reflexivity.
Qed.

(** An inactive animation ignores [step()]. *)
Lemma step_inactive (now : Z) a w :
  Animation.isActive (Animation.data a) = false ->
  Animation.step now a w = Ok (a, w).
Proof. intros H. unfold Animation.step. rewrite H. reflexivity. Qed.

Lemma step_past_endTime (now e : Z) a w :
  Animation.isActive (Animation.data a) = true ->
  Animation.endTime (Animation.data a) = Some e ->
  (e < now)%Z ->
  Animation.step now a w = Ok (Animation.complete a w).
Proof.
  intros Hact He Hlt. unfold Animation.step.
  rewrite Hact, He. cbn [negb].
  replace (now >? e)%Z with true by (symmetry; apply Z.gtb_lt; lia).
  reflexivity.
Qed.

Lemma completions_call_setter a (v : option num) w :
  Animation.completions (Animation.call_setter a v w) = Animation.completions w.
Proof.
  unfold Animation.call_setter, Animation.completions. cbn [Animation.log].
  rewrite List.filter_app, length_app. cbn. lia.
Qed.

Lemma completions_call_onComplete (f : Target -> Target) w :
  Animation.completions (Animation.call_onComplete f w) = S (Animation.completions w).
Proof.
  unfold Animation.call_onComplete, Animation.completions. cbn [Animation.log].
  rewrite List.filter_app, length_app. cbn. lia.
Qed.

(** One [step()] invokes the callback at most once, and only while
    deactivating an active animation. *)
Lemma step_completions (now : Z) a w a' w' :
  Animation.step now a w = Ok (a', w') ->
  (Animation.completions w' = Animation.completions w /\
   Animation.isActive (Animation.data a') = Animation.isActive (Animation.data a)) \/
  (Animation.completions w' <= S (Animation.completions w) /\
   Animation.isActive (Animation.data a) = true /\
   Animation.isActive (Animation.data a') = false).
Proof.
  unfold Animation.step.
  destruct (Animation.isActive (Animation.data a)) eqn:Hact; cbn [negb].
  2:{ intros H. injection H as <- <-. left. split; [reflexivity | congruence]. }
  destruct (Animation.endTime (Animation.data a)) as [e|]; [|discriminate].
  destruct (now >? e)%Z.
  - unfold Animation.complete.
    destruct (Animation.onComplete a) as [f|]; intros Hs; injection Hs as <- <-;
      right; (split; [|split; reflexivity]).
    + rewrite completions_call_onComplete, completions_call_setter. lia.
    + rewrite completions_call_setter. lia.
  - unfold rbind.
    destruct (Num.truediv _ _) as [frac|]; [|discriminate].
    destruct (Animation.easing a frac) as [k|]; [|discriminate].
    destruct (Animation.destination (Animation.data a)) as [dest|]; [|discriminate].
    intros H. injection H as <- <-. left. split; [|congruence].
    apply completions_call_setter.
Qed.

(** Over any run of [step()] calls, an animation that starts inactive
    never has its callback invoked, and one that starts active has it
    invoked at most once. *)
Lemma steps_completions (clock : list Z) a w a' w' :
  Animation.steps clock a w = Ok (a', w') ->
  (Animation.completions w' <=
   Animation.completions w +
   (if Animation.isActive (Animation.data a) then 1 else 0))%nat.
Proof.
  revert a w. induction clock as [|now rest IH]; intros a w; cbn [Animation.steps].
  - intros H. injection H as <- <-. lia.
  - unfold rbind. destruct (Animation.step now a w) as [[a1 w1]|] eqn:Hstep; [|discriminate].
    intros Hrest. specialize (IH _ _ Hrest).
    destruct (step_completions _ _ _ _ _ Hstep) as [[Hc Ha]|(Hc & Ha & Ha')].
    + rewrite Ha, Hc in IH. exact IH.
    + rewrite Ha' in IH. rewrite Ha. lia.
Qed.

End AnimationFacts.

(** C6: when the constructor returns, the animation is active, its end
    time is the clock reading, and its destination is the value the getter
    returned at construction time plus delta. *)
Theorem init_starts_animation
    (math_sin math_cos : Q -> Q) (math_pi : Q) (Target : Type)
    (setter : option num -> Target -> Target)
    (getter : Animation.attrs -> Target -> num)
    (delta duration : num) (easing : Animation.easing_arg)
    (onComplete : option (Target -> Target))
    (now : Z) (w : Animation.world Target) (a : Animation.t Target) :
  Animation.init math_sin math_cos math_pi setter getter delta duration
    easing onComplete now w = Ok a ->
  Animation.isActive (Animation.data a) = true /\
  Animation.destination (Animation.data a) =
    Some (Num.add
            (getter {| Animation.delta := delta; Animation.duration := duration;
                       Animation.endTime := Some now;
                       Animation.destination := None;
                       Animation.isActive := false |}
                    (Animation.target w))
            delta) /\
  Animation.endTime (Animation.data a) = Some now /\
  Animation.delta (Animation.data a) = delta /\
  Animation.duration (Animation.data a) = duration.
Proof.
  unfold Animation.init, rbind.
  destruct (Animation.select_easing math_sin math_cos math_pi easing) as [e|];
    [|discriminate].
  intros H. injection H as <-. rewrite start_data. cbn. repeat split.
Qed.

Lemma init_starts_animation_witness :
  exists a,
    Sample.glide (Animation.EName "quadratic") = Ok a /\
    Animation.isActive (Animation.data a) = true /\
    Animation.destination (Animation.data a) = Some (NInt 100) /\
    Animation.endTime (Animation.data a) = Some 5000%Z.
Proof.
  eexists. split; [reflexivity|].
  pose proof (init_starts_animation Sample.sin Sample.cos Sample.pi num
                Sample.cell_setter Sample.cell_getter (NInt 100) (NInt 1000)
                (Animation.EName "quadratic") (Some (fun cell => cell))
                5000 Sample.world0 _ eq_refl) as (Hact & Hdest & Hend & _).
  split; [exact Hact|]. split; [exact Hdest | exact Hend].
Defined.

(** C3 (the code at the failing input): with an easing name that is not
    pre-defined, or with no easing, the constructor raises AttributeError
    where it reads [self.easings.sinusoidal]; no animation is built. *)
Theorem init_default_easing_raises
    (math_sin math_cos : Q -> Q) (math_pi : Q) (Target : Type)
    (setter : option num -> Target -> Target)
    (getter : Animation.attrs -> Target -> num)
    (delta duration : num) (onComplete : option (Target -> Target))
    (now : Z) (w : Animation.world Target) :
  Animation.init math_sin math_cos math_pi setter getter delta duration
    (Animation.EName "bounce") onComplete now w =
    Raise (AttributeError "sinusoidal") /\
  Animation.init math_sin math_cos math_pi setter getter delta duration
    Animation.ENone onComplete now w =
    Raise (AttributeError "sinusoidal").
Proof. split; reflexivity. Qed.

(** Every name outside the dictionary takes the same path. *)
Lemma init_unknown_easing_raises
    (math_sin math_cos : Q -> Q) (math_pi : Q) (Target : Type)
    (setter : option num -> Target -> Target)
    (getter : Animation.attrs -> Target -> num)
    (delta duration : num) (name : string)
    (onComplete : option (Target -> Target))
    (now : Z) (w : Animation.world Target) :
  assoc name (Animation.easings math_sin math_cos math_pi) = None ->
  Animation.init math_sin math_cos math_pi setter getter delta duration
    (Animation.EName name) onComplete now w =
    Raise (AttributeError "sinusoidal").
Proof.
  intros H. unfold Animation.init.
  rewrite (select_easing_default _ _ _ (Animation.EName name) H). reflexivity.
Qed.

(** C4 (the code at the failing input): [elastic] and [elastic_in]
    divide by zero at 0, [elastic_out] divides by zero at 1, whatever
    [math.sin] returns. *)
Theorem elastic_easings_divide_by_zero (math_sin : Q -> Q) :
  Animation.elastic math_sin (NFloat 0) = Raise ZeroDivisionError /\
  Animation.elastic_in math_sin (NFloat 0) = Raise ZeroDivisionError /\
  Animation.elastic_out math_sin (NFloat 1) = Raise ZeroDivisionError /\
  Animation.elastic math_sin (NInt 0) = Raise ZeroDivisionError /\
  Animation.elastic_in math_sin (NInt 0) = Raise ZeroDivisionError /\
  Animation.elastic_out math_sin (NInt 1) = Raise ZeroDivisionError.
Proof. repeat split; reflexivity. Qed.

Lemma truediv_nonzero (a b : num) :
  Num.is_zero b = false ->
  Num.truediv a b = Ok (Num.mkfloat (Num.to_float a / Num.to_float b)).
Proof. intros H. unfold Num.truediv. rewrite H. reflexivity. Qed.

(** The other nine pre-defined easings return for every argument. *)
Lemma other_easings_total (math_sin math_cos : Q -> Q) (math_pi : Q) (t : num) :
  Forall (fun f : num -> result num => exists v, f t = Ok v)
    [ Animation.linear; Animation.sinusoidal math_cos math_pi;
      Animation.quadratic; Animation.cubic;
      Animation.sine_in math_sin math_pi; Animation.quad_in;
      Animation.cubic_in; Animation.sine_out math_sin math_pi;
      Animation.quad_out ].
Proof.
  repeat constructor;
    unfold Animation.linear, Animation.sinusoidal, Animation.quadratic,
      Animation.cubic, Animation.sine_in, Animation.quad_in,
      Animation.cubic_in, Animation.sine_out, Animation.quad_out,
      Animation.radians, Animation.half;
    rewrite ?truediv_nonzero by reflexivity; cbn [rbind];
    try match goal with |- context [if ?c then _ else _] => destruct c end;
    eexists; reflexivity.
Qed.

(** C2 (the code on every started animation): [start] stores the clock
    reading itself as [endTime], without the duration, so the first
    [step()] at a later clock reading takes the completion branch
    whatever the duration is: it hands the destination to the setter,
    deactivates the animation and invokes the callback if there is one. *)
Theorem step_after_start_completes
    (Target : Type) (a0 : Animation.t Target) (w0 w : Animation.world Target)
    (t0 now : Z) :
  (t0 < now)%Z ->
  let a := Animation.start t0 a0 w0 in
  exists a' w',
    Animation.step now a w = Ok (a', w') /\
    Animation.isActive (Animation.data a') = false /\
    Animation.log w' =
      Animation.log w ++
      Animation.Set_ (Animation.destination (Animation.data a)) ::
      match Animation.onComplete a0 with
      | Some _ => [Animation.Completed]
      | None => []
      end.
Proof.
  intros Hlt a.
  rewrite (step_past_endTime now t0 a w); [| reflexivity | reflexivity | exact Hlt].
  unfold Animation.complete.
  change (Animation.onComplete a) with (Animation.onComplete a0).
  destruct (Animation.onComplete a0) as [f|]; eexists; eexists;
    (split; [reflexivity|]); (split; [reflexivity|]);
    cbn [Animation.call_onComplete Animation.call_setter Animation.log];
    rewrite <- ?app_assoc; reflexivity.
Qed.

Lemma step_after_start_completes_witness :
  (5000 < 5001)%Z /\
  Animation.duration (Animation.data Sample.idle) = NInt 1000 /\
  exists a' w',
    Animation.step 5001 (Animation.start 5000 Sample.idle Sample.world0)
      Sample.world0 = Ok (a', w') /\
    Animation.isActive (Animation.data a') = false /\
    Animation.log w' = [Animation.Set_ (Some (NInt 100)); Animation.Completed].
Proof.
  split; [lia|]. split; [reflexivity|].
  exact (step_after_start_completes num Sample.idle Sample.world0 Sample.world0
           5000 5001 ltac:(lia)).
Defined.

(** C1 (the code at the failing input): a linear animation of duration
    1000 ms and delta 100, built at clock reading 5000 over the value 0,
    writes 100.0 when stepped in the same millisecond, and when stepped
    one millisecond later writes the destination 100, deactivates and
    invokes the callback; later steps write nothing. *)
Theorem linear_glide_jumps_to_destination :
  exists a,
    Sample.glide (Animation.EName "linear") = Ok a /\
    Animation.destination (Animation.data a) = Some (NInt 100) /\
    (exists a1 w1,
       Animation.step 5000 a Sample.world0 = Ok (a1, w1) /\
       Animation.isActive (Animation.data a1) = true /\
       Animation.target w1 = NFloat 100 /\
       Animation.log w1 = [Animation.Set_ (Some (NFloat 100))]) /\
    (exists a2 w2,
       Animation.steps [5001; 5002; 5999; 6000; 6001]%Z a Sample.world0 = Ok (a2, w2) /\
       Animation.isActive (Animation.data a2) = false /\
       Animation.target w2 = NInt 100 /\
       Animation.log w2 = [Animation.Set_ (Some (NInt 100)); Animation.Completed]).
Proof.
  eexists. split; [reflexivity|]. split; [reflexivity|].
  split; eexists; eexists; (split; [reflexivity|]); repeat split.
Qed.

(** ** The node tree *)

Section NodeFacts.

Implicit Types (t : Node.tree) (n p c a d : nat).











(** *** remove *)









(** *** addChild *)








End NodeFacts.


(** Attaching 1 under 0 and 2 under 1, then 0 under 2, leaves the tree
    as it was: the last call would close a cycle. *)
Example addChild_cycle_rejected :
  let t := Node.run [Node.AddChild 0 1 false; Node.AddChild 1 2 false]
             (Node.detached 3) in
  Node.addChild 2 0 false t = t /\
  Node.addChild 1 1 false t = t /\
  map (Node.parent t) [0; 1; 2]%nat = [None; Some 0; Some 1]%nat.
Proof. repeat split. Qed.

(** Re-attaching a child moves it: it leaves its former parent's
    sequence, and [atBack] decides the end it joins. *)
Example addChild_moves_child :
  let t := Node.run [Node.AddChild 0 1 false; Node.AddChild 0 2 false;
                     Node.AddChild 3 2 false; Node.AddChild 3 1 true;
                     Node.AddChild 3 0 false; Node.Remove 2]
             (Node.detached 4) in
  map (Node.children t) [0; 1; 2; 3]%nat = [[]; []; []; [1; 0]]%nat /\
  map (Node.parent t) [0; 1; 2; 3]%nat = [Some 3; Some 3; None; None]%nat.
Proof. repeat split. Qed.

(** * Further properties of the code *)

(** ** Numbers seen as rationals *)

Lemma to_float_add (a b : num) :
  (Num.to_float (Num.add a b) == Num.to_float a + Num.to_float b)%Q.
Proof.
  destruct a as [x|p], b as [y|q]; cbn [Num.add Num.to_float];
    try apply Num_to_float_mkfloat.
  rewrite inject_Z_plus. reflexivity.
Qed.

Lemma to_float_sub (a b : num) :
  (Num.to_float (Num.sub a b) == Num.to_float a - Num.to_float b)%Q.
Proof.
  destruct a as [x|p], b as [y|q]; cbn [Num.sub Num.to_float];
    try apply Num_to_float_mkfloat.
  unfold Z.sub. rewrite inject_Z_plus, inject_Z_opp. reflexivity.
Qed.

Lemma to_float_mul (a b : num) :
  (Num.to_float (Num.mul a b) == Num.to_float a * Num.to_float b)%Q.
Proof.
  destruct a as [x|p], b as [y|q]; cbn [Num.mul Num.to_float];
    try apply Num_to_float_mkfloat.
  rewrite inject_Z_mult. reflexivity.
Qed.

Lemma Num_leb_le (a b : num) :
  Num.leb a b = true <-> (Num.to_float a <= Num.to_float b)%Q.
Proof. apply Qle_bool_iff. Qed.

Lemma Num_eqb_eq (a b : num) :
  Num.eqb a b = true <-> (Num.to_float a == Num.to_float b)%Q.
Proof. apply Qeq_bool_iff. Qed.

Lemma Num_ltb_leb (a b : num) : Num.ltb a b = negb (Num.leb b a).
Proof. reflexivity. Qed.

Lemma int_float_int (z : Z) : Num.int_float (NInt z) = z.
Proof. unfold Num.int_float, Num.trunc. cbn. apply Z.quot_1_r. Qed.

(** Truncation towards zero stays between any two integer bounds. *)
Lemma trunc_between (lo hi : Z) (q : Q) :
  (inject_Z lo <= q)%Q -> (q <= inject_Z hi)%Q ->
  (lo <= Num.trunc q <= hi)%Z.
Proof.
  destruct q as [n d]. unfold Qle, Num.trunc, inject_Z. cbn.
  intros Hlo Hhi.
  pose proof (Z.quot_rem' n (Z.pos d)) as Hdiv.
  assert (Hd : (0 < Z.pos d)%Z) by lia.
  destruct (Z_le_gt_dec 0 n) as [Hn|Hn].
  - pose proof (Z.rem_bound_pos n (Z.pos d) Hn Hd). nia.
  - pose proof (Z.rem_bound_pos_neg n (Z.pos d) Hd ltac:(lia)). nia.
Qed.

(** A point with integer coordinates, spelled out. *)
Lemma integral_inv (p : Point.t) :
  Point.integral p -> exists u v, p = Point.mk (NInt u) (NInt v).
Proof.
  destruct p as [[u|q] [v|q']]; intros [Hx Hy]; try discriminate.
  by exists u, v.
Qed.

Lemma Point_init_int (u v : Z) :
  Point.init (NInt u) (NInt v) = Point.mk (NInt u) (NInt v).
Proof. unfold Point.init. by rewrite !int_float_int. Qed.

(** ** Point: comparison and arithmetic *)

Lemma Num_eqb_leb (a b : num) : Num.eqb a b = Num.leb a b && Num.leb b a.
Proof.
  destruct (Num.eqb a b) eqn:E.
  - apply Num_eqb_eq in E. symmetry. apply andb_true_iff.
    split; apply Num_leb_le; rewrite E; apply Qle_refl.
  - symmetry. apply andb_false_iff.
    destruct (Num.leb a b) eqn:E1; [|by left].
    destruct (Num.leb b a) eqn:E2; [|by right].
    apply Num_leb_le in E1, E2.
    assert (Num.eqb a b = true) by (apply Num_eqb_eq, Qle_antisym; assumption).
    congruence.
Qed.

Lemma Num_ltb_implies (a b : num) :
  Num.ltb a b = true -> Num.leb a b = true /\ Num.eqb a b = false.
Proof.
  intros H%Num_ltb_lt. split.
  - apply Num_leb_le, Qlt_le_weak, H.
  - apply Num_eqb_false. intros E. rewrite E in H. exact (Qlt_irrefl _ H).
Qed.

(** X1: Point comparison is component-wise. [p == q] holds exactly when
    both [p <= q] and [p >= q] do; [p < q] implies [p <= q] and excludes
    [p == q]; yet [p <= q] does not mean [p < q or p == q], and two
    points may be related by neither [<=] nor [>=]. *)
Theorem Point_comparison_componentwise :
  (forall p q : Point.t,
     PointMore.eq p (Point.OPoint q) =
       PointMore.le p (Point.OPoint q) && PointMore.ge p (Point.OPoint q)) /\
  (forall p q : Point.t,
     PointMore.lt p (Point.OPoint q) = true ->
     PointMore.le p (Point.OPoint q) = true /\
     PointMore.eq p (Point.OPoint q) = false) /\
  (exists p q : Point.t,
     PointMore.le p (Point.OPoint q) = true /\
     PointMore.lt p (Point.OPoint q) = false /\
     PointMore.eq p (Point.OPoint q) = false) /\
  (exists p q : Point.t,
     PointMore.le p (Point.OPoint q) = false /\
     PointMore.ge p (Point.OPoint q) = false).
Proof.
  split; [|split; [|split]].
  - intros p q. unfold PointMore.eq, PointMore.le, PointMore.ge.
    rewrite !Num_eqb_leb.
    destruct (Num.leb (Point.x p) (Point.x q)), (Num.leb (Point.x q) (Point.x p)),
      (Num.leb (Point.y p) (Point.y q)), (Num.leb (Point.y q) (Point.y p)); reflexivity.
  - intros p q. unfold PointMore.lt, PointMore.le, PointMore.eq.
    intros [Hx Hy]%andb_true_iff.
    apply Num_ltb_implies in Hx as [Hx1 Hx2], Hy as [Hy1 Hy2].
    rewrite Hx1, Hy1, Hx2. split; reflexivity.
  - exists (Point.init (NInt 1) (NInt 2)), (Point.init (NInt 1) (NInt 3)).
    repeat split.
  - exists (Point.init (NInt 1) (NInt 2)), (Point.init (NInt 2) (NInt 1)).
    repeat split.
Qed.

(** X2: on a point with integer coordinates [copy], [floor], [ceil],
    [round] (with [ndigits >= 0]) and double negation give the point
    back, and [abs] is idempotent. *)
Theorem Point_integral_fixed (p : Point.t) (ndigits : Z) :
  Point.integral p -> (0 <= ndigits)%Z ->
  Point.copy p = p /\
  Point.floor p = p /\
  Point.ceil p = p /\
  Point.round p ndigits = p /\
  Point.neg (Point.neg p) = p /\
  Point.abs (Point.abs p) = Point.abs p.
Proof.
  intros (u & v & ->)%integral_inv Hnd.
  unfold Point.copy, Point.floor, Point.ceil, Point.round, Point.neg, Point.abs,
    Num.floor, Num.ceil, Num.round, Num.neg, Num.abs.
  cbn [Point.x Point.y Num.to_float].
  replace (0 <=? ndigits)%Z with true by (symmetry; apply Z.leb_le, Hnd).
  rewrite !Qfloor_Z, !Qceiling_Z, !Point_init_int.
  cbn [Point.x Point.y]. rewrite !Point_init_int.
  rewrite !Z.opp_involutive, !Z.abs_idemp. repeat split.
Qed.

Lemma Point_integral_fixed_witness :
  let p := Point.init (NFloat (-7 # 2)) (NInt 4) in
  Point.integral p /\ (0 <= 2)%Z /\
  Point.copy p = p /\ Point.round p 2 = p /\ Point.neg (Point.neg p) = p.
Proof.
  intros p.
  pose proof (Point_integral_fixed p 2 (Point_init_integral _ _) ltac:(lia))
    as (Hc & _ & _ & Hr & Hn & _).
  split; [apply Point_init_integral|]. split; [lia|].
  split; [exact Hc|]. split; [exact Hr | exact Hn].
Defined.

Lemma within_init (bound u v : Z) :
  (- bound <= u <= bound)%Z -> (- bound <= v <= bound)%Z ->
  PointMore.within bound (Point.init (NInt u) (NInt v)).
Proof. intros Hu Hv. exists u, v. by rewrite Point_init_int. Qed.

(** X3: on points whose coordinates are ints of magnitude at most 2^52
    (so that every sum and difference is exactly a double), subtraction
    undoes addition and addition undoes subtraction, addition and
    multiplication commute, and the reflected operators [__radd__],
    [__rmul__] and [__rsub__] agree with the direct ones with the
    operands swapped. *)
Theorem Point_add_sub_round_trip (p q : Point.t) :
  PointMore.within (2 ^ 52) p -> PointMore.within (2 ^ 52) q ->
  Point.sub (Point.add p (Point.OPoint q)) (Point.OPoint q) = p /\
  Point.add (Point.sub p (Point.OPoint q)) (Point.OPoint q) = p /\
  Point.add p (Point.OPoint q) = Point.add q (Point.OPoint p) /\
  Point.mul p (Point.OPoint q) = Point.mul q (Point.OPoint p) /\
  Point.radd p (Point.OPoint q) = Point.add q (Point.OPoint p) /\
  Point.rmul p (Point.OPoint q) = Point.mul q (Point.OPoint p) /\
  Point.rsub p (Point.OPoint q) = Point.sub q (Point.OPoint p).
Proof.
  intros (u & v & -> & _ & _) (u' & v' & -> & _ & _).
  unfold Point.sub, Point.add, Point.mul, Point.radd, Point.rmul, Point.rsub.
  cbn [Point.x Point.y Num.add Num.sub Num.mul].
  rewrite !Point_init_int. cbn [Point.x Point.y Num.add Num.sub Num.mul].
  rewrite !Point_init_int.
  repeat split; f_equal; f_equal; lia.
Qed.

Lemma Point_add_sub_round_trip_witness :
  let p := Point.init (NInt 3) (NInt 4) in
  let q := Point.init (NInt (-10)) (NInt 7) in
  PointMore.within (2 ^ 52) p /\ PointMore.within (2 ^ 52) q /\
  Point.sub (Point.add p (Point.OPoint q)) (Point.OPoint q) = p.
Proof.
  intros p q.
  assert (Hp : PointMore.within (2 ^ 52) p) by (apply within_init; lia).
  assert (Hq : PointMore.within (2 ^ 52) q) by (apply within_init; lia).
  split; [exact Hp|]. split; [exact Hq|].
  exact (proj1 (Point_add_sub_round_trip p q Hp Hq)).
Defined.

Lemma is_zero_int (m : Z) : Num.is_zero (NInt m) = (m =? 0)%Z.
Proof.
  destruct (Z.eqb_spec m 0) as [->|Hne]; [reflexivity|].
  unfold Num.is_zero. destruct (Qeq_bool _ _) eqn:E; [|reflexivity].
  apply Qeq_bool_iff in E. unfold Qeq in E. cbn in E. lia.
Qed.

(** X4: dividing a point by a number, with [/], [//] or [%], raises
    ZeroDivisionError exactly when the number is zero. For a point whose
    coordinates are ints of magnitude at most 2^52 and a non-zero int of
    magnitude at most 2^52, all three return a point. *)
Theorem Point_division_by_number (p : Point.t) (n : num) :
  (Point.truediv p (Point.ONum n) = Raise ZeroDivisionError <-> Num.is_zero n = true) /\
  (Point.floordiv p (Point.ONum n) = Raise ZeroDivisionError <-> Num.is_zero n = true) /\
  (Point.mod_ p (Point.ONum n) = Raise ZeroDivisionError <-> Num.is_zero n = true) /\
  (forall m : Z,
     PointMore.within (2 ^ 52) p -> n = NInt m ->
     m <> 0%Z -> (- 2 ^ 52 <= m <= 2 ^ 52)%Z ->
     exists a b c, Point.truediv p (Point.ONum n) = Ok a /\
                   Point.floordiv p (Point.ONum n) = Ok b /\
                   Point.mod_ p (Point.ONum n) = Ok c).
Proof.
  unfold Point.truediv, Point.floordiv, Point.mod_, Point.lift2,
    Num.truediv, Num.floordiv, Num.mod_.
  destruct (Num.is_zero n) eqn:Hz; cbn [rbind].
  - repeat split; try reflexivity.
    intros m _ -> Hm _. rewrite is_zero_int in Hz.
    apply Z.eqb_eq in Hz. contradiction.
  - assert (Hfd : forall a : num, exists r,
              match a, n with
              | NInt x0, NInt y0 => Ok (NInt (x0 / y0))
              | _, _ => Ok (Num.mkfloat (inject_Z (Qfloor (Num.to_float a / Num.to_float n))))
              end = Ok r)
      by (intros a; destruct a, n; eexists; reflexivity).
    assert (Hmd : forall a : num, exists r,
              match a, n with
              | NInt x0, NInt y0 => Ok (NInt (x0 mod y0))
              | _, _ => Ok (Num.mkfloat
                              (Num.to_float a -
                               Num.to_float n *
                               inject_Z (Qfloor (Num.to_float a / Num.to_float n))))
              end = Ok r)
      by (intros a; destruct a, n; eexists; reflexivity).
    destruct (Hfd (Point.x p)) as [fx ->], (Hfd (Point.y p)) as [fy ->].
    destruct (Hmd (Point.x p)) as [mx ->], (Hmd (Point.y p)) as [my ->].
    cbn [rbind].
    repeat split; try discriminate.
    intros m _ _ _ _. eexists _, _, _. repeat split.
Qed.

(** X5: for a point whose coordinates are ints of magnitude at most
    2^52 and a non-zero int [n] of magnitude at most 2^52 (of either
    sign), [(p // n) * n + (p % n)] is [p] again. *)
Theorem Point_floordiv_mod (p : Point.t) (n : Z) :
  PointMore.within (2 ^ 52) p -> n <> 0%Z -> (- 2 ^ 52 <= n <= 2 ^ 52)%Z ->
  exists d m,
    Point.floordiv p (Point.ONum (NInt n)) = Ok d /\
    Point.mod_ p (Point.ONum (NInt n)) = Ok m /\
    Point.add (Point.mul d (Point.ONum (NInt n))) (Point.OPoint m) = p.
Proof.
  intros (u & v & -> & _ & _) Hn _.
  unfold Point.floordiv, Point.mod_, Point.lift2, Num.floordiv, Num.mod_.
  assert (Hz : Num.is_zero (NInt n) = false)
    by (rewrite is_zero_int; by apply Z.eqb_neq).
  rewrite Hz. cbn [rbind Point.x Point.y]. rewrite !Point_init_int.
  eexists _, _. split; [reflexivity|]. split; [reflexivity|].
  unfold Point.mul, Point.add. cbn [Point.x Point.y Num.mul Num.add].
  rewrite Point_init_int. cbn [Point.x Point.y Num.add]. rewrite Point_init_int.
  pose proof (Z.div_mod u n Hn). pose proof (Z.div_mod v n Hn).
  f_equal; f_equal; lia.
Qed.

Lemma Point_floordiv_mod_witness :
  let p := Point.init (NInt (-7)) (NInt 9) in
  PointMore.within (2 ^ 52) p /\ (-4)%Z <> 0%Z /\ (- 2 ^ 52 <= -4 <= 2 ^ 52)%Z /\
  exists d m,
    Point.floordiv p (Point.ONum (NInt (-4))) = Ok d /\
    Point.mod_ p (Point.ONum (NInt (-4))) = Ok m /\
    Point.add (Point.mul d (Point.ONum (NInt (-4)))) (Point.OPoint m) = p.
Proof.
  intros p.
  assert (Hp : PointMore.within (2 ^ 52) p) by (apply within_init; lia).
  split; [exact Hp|]. split; [lia|]. split; [lia|].
  exact (Point_floordiv_mod p (-4) Hp ltac:(lia) ltac:(lia)).
Defined.

Lemma Num_ltb_int (u v : Z) : Num.ltb (NInt u) (NInt v) = (u <? v)%Z.
Proof.
  unfold Num.ltb, Qle_bool. cbn. rewrite !Z.mul_1_r.
  symmetry. apply Z.ltb_antisym.
Qed.

Lemma Num_leb_int (u v : Z) : Num.leb (NInt u) (NInt v) = (u <=? v)%Z.
Proof. unfold Num.leb, Qle_bool. cbn. by rewrite !Z.mul_1_r. Qed.

Lemma Num_max_int (u v : Z) : Num.max (NInt u) (NInt v) = NInt (Z.max u v).
Proof.
  unfold Num.max. rewrite Num_ltb_int.
  destruct (Z.ltb_spec u v); f_equal; lia.
Qed.

Lemma Num_min_int (u v : Z) : Num.min (NInt u) (NInt v) = NInt (Z.min u v).
Proof.
  unfold Num.min. rewrite Num_ltb_int.
  destruct (Z.ltb_spec v u); f_equal; lia.
Qed.

(** X6: for points with integer coordinates, [max] is an upper bound and
    [min] a lower bound of both arguments in the component-wise order,
    both commute, and with an argument that is not a Point they return
    the receiver unchanged. *)
Theorem Point_max_min_bounds (p q : Point.t) (n : num) :
  Point.integral p -> Point.integral q ->
  PointMore.le p (Point.OPoint (Point.max p (Point.OPoint q))) = true /\
  PointMore.le q (Point.OPoint (Point.max p (Point.OPoint q))) = true /\
  PointMore.le (Point.min p (Point.OPoint q)) (Point.OPoint p) = true /\
  PointMore.le (Point.min p (Point.OPoint q)) (Point.OPoint q) = true /\
  Point.max p (Point.OPoint q) = Point.max q (Point.OPoint p) /\
  Point.min p (Point.OPoint q) = Point.min q (Point.OPoint p) /\
  Point.max p (Point.ONum n) = p /\
  Point.min p (Point.ONum n) = p.
Proof.
  intros (u & v & ->)%integral_inv (u' & v' & ->)%integral_inv.
  unfold Point.max, Point.min, PointMore.le. cbn [Point.x Point.y].
  rewrite !Num_max_int, !Num_min_int, !Point_init_int. cbn [Point.x Point.y].
  rewrite !Num_leb_int.
  repeat split; try (apply andb_true_iff; split; apply Z.leb_le; lia);
    f_equal; f_equal; lia.
Qed.

Lemma Point_max_min_bounds_witness :
  let p := Point.init (NInt 1) (NInt 8) in
  let q := Point.init (NInt 5) (NInt 2) in
  Point.integral p /\ Point.integral q /\
  Point.max p (Point.OPoint q) = Point.init (NInt 5) (NInt 8) /\
  PointMore.le p (Point.OPoint (Point.max p (Point.OPoint q))) = true.
Proof.
  intros p q.
  pose proof (Point_max_min_bounds p q (NInt 0) (Point_init_integral _ _)
                (Point_init_integral _ _)) as (H & _).
  split; [apply Point_init_integral|]. split; [apply Point_init_integral|].
  split; [reflexivity | exact H].
Defined.

(** X7: [mirror] (also bound as [flip]) raises TypeError for every point
    and every axis, so [__cross__] (also bound as [cross]) raises
    TypeError for every pair of points; with a number as argument
    [__cross__] returns [NotImplemented]. *)
Theorem Point_cross_raises (p q : Point.t) (axis : option Point.operand) (n : num) :
  Point.mirror p axis = Raise TypeError /\
  PointMore.cross p (Point.OPoint q) = Raise TypeError /\
  PointMore.cross p (Point.ONum n) = Ok None.
Proof.
  split; [apply Point_mirror_raises|].
  split; [|reflexivity].
  unfold PointMore.cross. by rewrite Point_mirror_raises.
Qed.

Lemma trunc_small (q : Q) : (-1 < q)%Q -> (q < 1)%Q -> Num.trunc q = 0%Z.
Proof.
  destruct q as [m d]. unfold Qlt, Num.trunc. cbn.
  intros Hlo Hhi.
  pose proof (Z.quot_rem' m (Z.pos d)) as Hdiv.
  assert (Hd : (0 < Z.pos d)%Z) by lia.
  destruct (Z_le_gt_dec 0 m) as [Hm|Hm].
  - pose proof (Z.rem_bound_pos m (Z.pos d) Hm Hd). nia.
  - pose proof (Z.rem_bound_pos_neg m (Z.pos d) Hd ltac:(lia)). nia.
Qed.




(** X10: between points whose coordinates are ints of magnitude at most
    2^25 (so that the squares and their sum are exactly doubles)
    [distanceTo] never raises and is symmetric, whatever [math.sqrt]
    computes. *)
Theorem Point_distanceTo_symmetric (math_sqrt : Q -> Q) (p q : Point.t) :
  PointMore.within (2 ^ 25) p -> PointMore.within (2 ^ 25) q ->
  PointMore.distanceTo math_sqrt p (Point.OPoint q) =
    PointMore.distanceTo math_sqrt q (Point.OPoint p) /\
  exists d, PointMore.distanceTo math_sqrt p (Point.OPoint q) = Ok d.
Proof.
  intros (u & v & -> & _ & _) (u' & v' & -> & _ & _).
  unfold PointMore.distanceTo, PointMore.r, Point.dot, Point.sub, Point.mul.
  cbn [Point.x Point.y Num.sub]. rewrite !Point_init_int.
  cbn [Point.x Point.y Num.mul]. rewrite !Point_init_int.
  cbn [Point.x Point.y Num.add].
  replace ((u - u') * (u - u') + (v - v') * (v - v'))%Z
    with ((u' - u) * (u' - u) + (v' - v) * (v' - v))%Z by lia.
  split; [reflexivity|].
  unfold PointMore.sqrt. rewrite Num_ltb_int.
  match goal with
  | |- context [(?s <? 0)%Z] => destruct (Z.ltb_spec s 0) as [Hneg|_];
      [exfalso; pose proof (Z.square_nonneg (u' - u));
       pose proof (Z.square_nonneg (v' - v)); lia|]
  end.
  eexists. reflexivity.
Qed.

Lemma Point_distanceTo_symmetric_witness :
  let p := Point.init (NInt 0) (NInt 0) in
  let q := Point.init (NInt 3) (NInt 4) in
  PointMore.within (2 ^ 25) p /\ PointMore.within (2 ^ 25) q /\
  PointMore.distanceTo Sample.sqrt p (Point.OPoint q) =
  PointMore.distanceTo Sample.sqrt q (Point.OPoint p).
Proof.
  intros p q.
  assert (Hp : PointMore.within (2 ^ 25) p) by (apply within_init; lia).
  assert (Hq : PointMore.within (2 ^ 25) q) by (apply within_init; lia).
  split; [exact Hp|]. split; [exact Hq|].
  exact (proj1 (Point_distanceTo_symmetric Sample.sqrt p q Hp Hq)).
Defined.

(** ** Point: the loop of distanceAngle *)

Lemma normalize_inside (fuel : nat) (deg : Z) :
  (-270 < deg < 270)%Z -> PointMore.normalize fuel (NInt deg) = Some (NInt deg).
Proof.
  intros H. destruct fuel; cbn [PointMore.normalize]; rewrite !Num_ltb_int;
    replace (-270 <? deg)%Z with true by (symmetry; apply Z.ltb_lt; lia);
    replace (deg <? 270)%Z with true by (symmetry; apply Z.ltb_lt; lia);
    reflexivity.
Qed.

Lemma normalize_above (fuel : nat) (deg : Z) :
  (270 < deg)%Z ->
  PointMore.normalize (S fuel) (NInt deg) = PointMore.normalize fuel (NInt (deg - 360)).
Proof.
  intros H. cbn [PointMore.normalize Num.sub]. rewrite !Num_ltb_int.
  replace (deg <? 270)%Z with false by (symmetry; apply Z.ltb_ge; lia).
  rewrite andb_false_r. cbn [negb].
  replace (270 <? deg)%Z with true by (symmetry; apply Z.ltb_lt; lia).
  reflexivity.
Qed.

Lemma normalize_below (fuel : nat) (deg : Z) :
  (deg < -270)%Z ->
  PointMore.normalize (S fuel) (NInt deg) = PointMore.normalize fuel (NInt (deg + 360)).
Proof.
  intros H. cbn [PointMore.normalize Num.add]. rewrite !Num_ltb_int.
  replace (-270 <? deg)%Z with false by (symmetry; apply Z.ltb_ge; lia).
  cbn [andb negb].
  replace (270 <? deg)%Z with false by (symmetry; apply Z.ltb_ge; lia).
  replace (deg <? -270)%Z with true by (symmetry; apply Z.ltb_lt; lia).
  reflexivity.
Qed.

Lemma normalize_stuck (fuel : nat) (deg : Z) :
  deg = 270%Z \/ deg = (-270)%Z -> PointMore.normalize fuel (NInt deg) = None.
Proof.
  intros H. induction fuel as [|fuel IH]; cbn [PointMore.normalize];
    rewrite !Num_ltb_int.
  - destruct H as [-> | ->]; reflexivity.
  - destruct H as [-> | ->]; cbn; exact IH.
Qed.

Lemma normalize_diverges_above (fuel k : nat) :
  PointMore.normalize fuel (NInt (270 + 360 * Z.of_nat k)) = None.
Proof.
  revert k. induction fuel as [|fuel IH]; intros k.
  - cbn [PointMore.normalize]. rewrite !Num_ltb_int.
    replace (270 + 360 * Z.of_nat k <? 270)%Z with false
      by (symmetry; apply Z.ltb_ge; lia).
    by rewrite andb_false_r.
  - destruct k as [|k].
    + apply normalize_stuck. left. lia.
    + rewrite normalize_above by lia.
      replace (270 + 360 * Z.of_nat (S k) - 360)%Z with (270 + 360 * Z.of_nat k)%Z by lia.
      apply IH.
Qed.

Lemma normalize_diverges_below (fuel k : nat) :
  PointMore.normalize fuel (NInt (-270 - 360 * Z.of_nat k)) = None.
Proof.
  revert k. induction fuel as [|fuel IH]; intros k.
  - cbn [PointMore.normalize]. rewrite !Num_ltb_int.
    replace (-270 <? -270 - 360 * Z.of_nat k)%Z with false
      by (symmetry; apply Z.ltb_ge; lia).
    reflexivity.
  - destruct k as [|k].
    + apply normalize_stuck. right. lia.
    + rewrite normalize_below by lia.
      replace (-270 - 360 * Z.of_nat (S k) + 360)%Z with (-270 - 360 * Z.of_nat k)%Z by lia.
      apply IH.
Qed.

(** Every other integer angle leaves the loop, within a number of
    iterations given by its size. *)
Lemma normalize_terminates_above (k : nat) (deg : Z) :
  (270 + 360 * Z.of_nat k < deg < 270 + 360 * Z.of_nat (S k))%Z ->
  PointMore.normalize (S k) (NInt deg) =
  Some (NInt (deg - 360 * Z.of_nat (S k))).
Proof.
  revert deg. induction k as [|k IH]; intros deg H.
  - rewrite normalize_above by lia. rewrite normalize_inside by lia.
    match goal with
    | |- Some (NInt ?u) = Some (NInt ?v) => replace u with v by lia; reflexivity
    end.
  - rewrite normalize_above by lia. rewrite IH by lia.
    match goal with
    | |- Some (NInt ?u) = Some (NInt ?v) => replace u with v by lia; reflexivity
    end.
Qed.

Lemma normalize_terminates_below (k : nat) (deg : Z) :
  (-270 - 360 * Z.of_nat (S k) < deg < -270 - 360 * Z.of_nat k)%Z ->
  PointMore.normalize (S k) (NInt deg) =
  Some (NInt (deg + 360 * Z.of_nat (S k))).
Proof.
  revert deg. induction k as [|k IH]; intros deg H.
  - rewrite normalize_below by lia. rewrite normalize_inside by lia.
    match goal with
    | |- Some (NInt ?u) = Some (NInt ?v) => replace u with v by lia; reflexivity
    end.
  - rewrite normalize_below by lia. rewrite IH by lia.
    match goal with
    | |- Some (NInt ?u) = Some (NInt ?v) => replace u with v by lia; reflexivity
    end.
Qed.

(** X9: [distanceAngle] never returns when the angle is 270 plus a
    non-negative multiple of 360, or -270 minus one: the loop reaches 270
    (or -270), which neither of its two tests changes. Any integer angle
    strictly between two such values leaves the loop with an angle
    strictly between -270 and 270. *)
Theorem distanceAngle_diverges
    (math_sin math_sqrt : Q -> Q) (math_pi : Q)
    (self : Point.t) (dist : num) (k : nat) :
  (forall fuel,
     PointMore.distanceAngle math_sin math_sqrt math_pi fuel self dist
       (NInt (270 + 360 * Z.of_nat k)) = None) /\
  (forall fuel,
     PointMore.distanceAngle math_sin math_sqrt math_pi fuel self dist
       (NInt (-270 - 360 * Z.of_nat k)) = None) /\
  (forall deg,
     (270 + 360 * Z.of_nat k < deg < 270 + 360 * Z.of_nat (S k))%Z ->
     exists d, PointMore.normalize (S k) (NInt deg) = Some (NInt d) /\
               (-270 < d < 270)%Z) /\
  (forall deg,
     (-270 - 360 * Z.of_nat (S k) < deg < -270 - 360 * Z.of_nat k)%Z ->
     exists d, PointMore.normalize (S k) (NInt deg) = Some (NInt d) /\
               (-270 < d < 270)%Z).
Proof.
  split; [|split; [|split]].
  - intros fuel. unfold PointMore.distanceAngle.
    by rewrite normalize_diverges_above.
  - intros fuel. unfold PointMore.distanceAngle.
    by rewrite normalize_diverges_below.
  - intros deg H. eexists. split; [by apply normalize_terminates_above | lia].
  - intros deg H. eexists. split; [by apply normalize_terminates_below | lia].
Qed.

(** ** Color: channels, mixing *)

Lemma Color_int_trunc (n : num) : Color.int n = Num.trunc (Num.to_float n).
Proof.
  destruct n as [z|q]; [|reflexivity].
  symmetry. apply int_float_int.
Qed.

Lemma Color_int_between (lo hi : Z) (n : num) :
  (inject_Z lo <= Num.to_float n)%Q -> (Num.to_float n <= inject_Z hi)%Q ->
  (lo <= Color.int n <= hi)%Z.
Proof. rewrite Color_int_trunc. apply trunc_between. Qed.

Lemma Color_init_int (r0 g0 b0 a0 : Z) :
  Color.init (NInt r0) (NInt g0) (NInt b0) (NInt a0) = Color.mk r0 g0 b0 a0.
Proof. reflexivity. Qed.

(** X11: [Color.__repr__] raises TypeError for every color: it adds the
    integer channel [self.r] to the text ['Color('] without converting
    it. *)
Theorem Color_repr_raises (c : Color.t) : ColorMore.repr c = Raise TypeError.
Proof. reflexivity. Qed.

(** X12: the constructor stores every channel as an integer, truncating
    towards zero; in particular every alpha strictly between -1 and 1 is
    stored as 0. *)
Theorem Color_alpha_truncated (r0 g0 b0 : num) (alpha : Q) :
  (-1 < alpha)%Q -> (alpha < 1)%Q ->
  Color.a (Color.init r0 g0 b0 (NFloat alpha)) = 0%Z.
Proof. intros H1 H2. cbn. by apply trunc_small. Qed.

Lemma Color_alpha_truncated_witness :
  (-1 < 1 # 2)%Q /\ (1 # 2 < 1)%Q /\
  Color.a (Color.init (NInt 255) (NInt 165) (NInt 0) (NFloat (1 # 2))) = 0%Z.
Proof.
  assert (H1 : (-1 < 1 # 2)%Q) by reflexivity.
  assert (H2 : (1 # 2 < 1)%Q) by reflexivity.
  split; [exact H1|]. split; [exact H2|].
  exact (Color_alpha_truncated (NInt 255) (NInt 165) (NInt 0) (1 # 2) H1 H2).
Defined.

(** X13: [inverted] is an involution, [copy] returns an equal color,
    and [solid] keeps the three colour channels, sets alpha to 1 and is
    idempotent. *)
Theorem Color_inverted_involution (c : Color.t) :
  ColorMore.inverted (ColorMore.inverted c) = c /\
  Color.copy c = c /\
  ColorMore.eq (Color.copy c) (Some c) = true /\
  Color.a (ColorMore.solid c) = 1%Z /\
  ColorMore.solid (ColorMore.solid c) = ColorMore.solid c /\
  ColorMore.inverted (ColorMore.solid c) =
    Color.mk (255 - Color.r c) (255 - Color.g c) (255 - Color.b c) 0.
Proof.
  destruct c as [r0 g0 b0 a0].
  unfold ColorMore.inverted, ColorMore.solid, Color.copy, ColorMore.eq.
  rewrite ?Color_init_int. cbn [Color.r Color.g Color.b Color.a].
  rewrite ?Color_init_int, ?Z.eqb_refl.
  repeat split; f_equal; lia.
Qed.





(** Two colors with channels in 0..255 used to run the mixing methods. *)
Lemma sample_colors_in_range :
  ColorMore.channels_in_range (Color.mk 200 100 0 1) /\
  ColorMore.channels_in_range (Color.mk 0 50 255 1).
Proof. unfold ColorMore.channels_in_range. cbn. lia. Qed.



Lemma mix_channel_exact (u v w : Z) (frac1 : num) :
  (Num.to_float (Num.add (Num.mul (NInt u) frac1)
                         (Num.mul (NInt v) (Num.sub (NInt 1) frac1))) ==
   inject_Z w)%Q ->
  Color.int (Num.add (Num.mul (NInt u) frac1)
                     (Num.mul (NInt v) (Num.sub (NInt 1) frac1))) = w.
Proof.
  intros H.
  assert (w <= Color.int (Num.add (Num.mul (NInt u) frac1)
                            (Num.mul (NInt v) (Num.sub (NInt 1) frac1))) <= w)%Z.
  { apply Color_int_between; rewrite H; apply Qle_refl. }
  lia.
Qed.

Lemma mix_channel_one (u v : Z) (frac1 : num) :
  (Num.to_float frac1 == 1)%Q ->
  Color.int (Num.add (Num.mul (NInt u) frac1)
                     (Num.mul (NInt v) (Num.sub (NInt 1) frac1))) = u.
Proof.
  intros H. apply mix_channel_exact.
  rewrite to_float_add, !to_float_mul, to_float_sub, H. cbn [Num.to_float].
  change (inject_Z 1) with 1%Q. ring.
Qed.

Lemma mix_channel_zero (u v : Z) (frac1 : num) :
  (Num.to_float frac1 == 0)%Q ->
  Color.int (Num.add (Num.mul (NInt u) frac1)
                     (Num.mul (NInt v) (Num.sub (NInt 1) frac1))) = v.
Proof.
  intros H. apply mix_channel_exact.
  rewrite to_float_add, !to_float_mul, to_float_sub, H. cbn [Num.to_float].
  change (inject_Z 1) with 1%Q. ring.
Qed.

Lemma mixed_fraction_high (proportion : num) :
  (1 <= Num.to_float proportion)%Q ->
  (Num.to_float (Num.min (Num.max proportion (NInt 0)) (NInt 1)) == 1)%Q.
Proof.
  intros H. unfold Num.max.
  rewrite (Num_ltb_false proportion (NInt 0)) by (cbn [Num.to_float]; change (inject_Z 0) with 0%Q; lra).
  unfold Num.min. destruct (Num.ltb (NInt 1) proportion) eqn:E; [reflexivity|].
  apply Qle_antisym; [|exact H].
  apply Qnot_lt_le. intros Hlt.
  assert (Num.ltb (NInt 1) proportion = true) by (apply Num_ltb_lt; exact Hlt).
  congruence.
Qed.

Lemma mixed_fraction_low (proportion : num) :
  (Num.to_float proportion <= 0)%Q ->
  (Num.to_float (Num.min (Num.max proportion (NInt 0)) (NInt 1)) == 0)%Q.
Proof.
  intros H. unfold Num.max.
  destruct (Num.ltb proportion (NInt 0)) eqn:E.
  - reflexivity.
  - unfold Num.min.
    rewrite (Num_ltb_false (NInt 1) proportion)
      by (cbn [Num.to_float]; change (inject_Z 1) with 1%Q; lra).
    apply Qle_antisym; [exact H|].
    apply Qnot_lt_le. intros Hlt.
    assert (Num.ltb proportion (NInt 0) = true) by (apply Num_ltb_lt; exact Hlt).
    congruence.
Qed.

Lemma mixed_high (c o : Color.t) (proportion : num) :
  (1 <= Num.to_float proportion)%Q -> ColorMore.mixed c proportion (Some o) = c.
Proof.
  intros H%mixed_fraction_high. destruct c as [r0 g0 b0 a0].
  unfold ColorMore.mixed, Color.init. cbn [Color.r Color.g Color.b Color.a].
  by rewrite !mix_channel_one.
Qed.

Lemma mixed_low (c o : Color.t) (proportion : num) :
  (Num.to_float proportion <= 0)%Q -> ColorMore.mixed c proportion (Some o) = o.
Proof.
  intros H%mixed_fraction_low. destruct o as [r0 g0 b0 a0].
  unfold ColorMore.mixed, Color.init. cbn [Color.r Color.g Color.b Color.a].
  by rewrite !mix_channel_zero.
Qed.

(** X15: for colors with channels in 0..255, [mixed] with a proportion
    of 1 or more returns the receiver, and with a proportion of 0 or less
    returns the other color. *)
Theorem Color_mixed_endpoints (c o : Color.t) (proportion : num) :
  ColorMore.channels_in_range c -> ColorMore.channels_in_range o ->
  ((1 <= Num.to_float proportion)%Q -> ColorMore.mixed c proportion (Some o) = c) /\
  ((Num.to_float proportion <= 0)%Q -> ColorMore.mixed c proportion (Some o) = o).
Proof. intros _ _. split; [apply mixed_high | apply mixed_low]. Qed.

Lemma Color_mixed_endpoints_witness :
  let c := Color.mk 200 100 0 1 in
  let o := Color.mk 0 50 255 1 in
  ColorMore.channels_in_range c /\ ColorMore.channels_in_range o /\
  ColorMore.mixed c (NFloat 1) (Some o) = c /\
  ColorMore.mixed c (NInt (-3)) (Some o) = o.
Proof.
  intros c o.
  destruct sample_colors_in_range as [Hc Ho].
  split; [exact Hc|]. split; [exact Ho|].
  split.
  - apply (proj1 (Color_mixed_endpoints c o (NFloat 1) Hc Ho)). discriminate.
  - apply (proj2 (Color_mixed_endpoints c o (NInt (-3)) Hc Ho)). discriminate.
Defined.




(** ** Color: conversions *)

Lemma Num_eqb_int (u v : Z) : Num.eqb (NInt u) (NInt v) = (u =? v)%Z.
Proof.
  destruct (Z.eqb_spec u v) as [->|Hne].
  - apply Num_eqb_eq. reflexivity.
  - apply Num_eqb_false. cbn [Num.to_float]. rewrite inject_Z_injective. exact Hne.
Qed.

Lemma Num_eqb_refl (a : num) : Num.eqb a a = true.
Proof. apply Num_eqb_eq. reflexivity. Qed.

Lemma hsva_rgba_total (h s v a0 : num) :
  exists r1 g1 b1, ColorMore.hsva_rgba h s v a0 = Ok (r1, g1, b1, a0).
Proof.
  unfold ColorMore.hsva_rgba, Num.floor, Num.mod_.
  set (z := Qfloor (Num.to_float (Num.mul h (NInt 6)))).
  change (Num.is_zero (NInt 6)) with false. cbn [rbind].
  rewrite !Num_eqb_int.
  pose proof (Z.mod_pos_bound z 6 ltac:(lia)) as Hm.
  destruct (Z.eqb_spec (z mod 6) 0); [eexists _, _, _; reflexivity|].
  destruct (Z.eqb_spec (z mod 6) 1); [eexists _, _, _; reflexivity|].
  destruct (Z.eqb_spec (z mod 6) 2); [eexists _, _, _; reflexivity|].
  destruct (Z.eqb_spec (z mod 6) 3); [eexists _, _, _; reflexivity|].
  destruct (Z.eqb_spec (z mod 6) 4); [eexists _, _, _; reflexivity|].
  destruct (Z.eqb_spec (z mod 6) 5); [eexists _, _, _; reflexivity|].
  lia.
Qed.

(** X17: for h, s and v within [0, 1], as the method's comment asks,
    [hsva_rgba] returns: [math.floor(h*6) % 6] is one of 0..5, so the
    branch that raises "This error should never be raised" is never
    taken. *)
Theorem hsva_rgba_never_raises (h s v a0 : num) :
  (0 <= Num.to_float h)%Q -> (Num.to_float h <= 1)%Q ->
  (0 <= Num.to_float s)%Q -> (Num.to_float s <= 1)%Q ->
  (0 <= Num.to_float v)%Q -> (Num.to_float v <= 1)%Q ->
  exists r1 g1 b1, ColorMore.hsva_rgba h s v a0 = Ok (r1, g1, b1, a0).
Proof. intros _ _ _ _ _ _. apply hsva_rgba_total. Qed.

Lemma hsva_rgba_never_raises_witness :
  (0 <= 1 # 2)%Q /\ (1 # 2 <= 1)%Q /\
  ColorMore.hsva_rgba (NFloat (1 # 2)) (NFloat (1 # 2)) (NInt 1) (NInt 1) =
    Ok (NFloat (255 # 2), NFloat 255, NInt 255, NInt 1) /\
  exists r1 g1 b1,
    ColorMore.hsva_rgba (NFloat (1 # 2)) (NFloat (1 # 2)) (NInt 1) (NInt 1) =
    Ok (r1, g1, b1, NInt 1).
Proof.
  assert (H1 : (0 <= 1 # 2)%Q) by discriminate.
  assert (H2 : (1 # 2 <= 1)%Q) by discriminate.
  split; [exact H1|]. split; [exact H2|].
  split; [reflexivity|].
  apply (hsva_rgba_never_raises (NFloat (1 # 2)) (NFloat (1 # 2)) (NInt 1) (NInt 1)
           H1 H2 H1 H2); discriminate.
Defined.

Lemma channel_fraction_le (x y : Z) :
  (x <= y)%Z ->
  (Num.to_float (Num.mkfloat (inject_Z x / 255)) <=
   Num.to_float (Num.mkfloat (inject_Z y / 255)))%Q.
Proof.
  intros H. rewrite !Num_to_float_mkfloat.
  unfold Qle, Qdiv, Qmult, Qinv, inject_Z; simpl. lia.
Qed.

Lemma truediv_by_difference (n a b : num) :
  Num.eqb a b = false -> exists q, Num.truediv n (Num.sub a b) = Ok q.
Proof.
  intros H. rewrite truediv_nonzero; [eexists; reflexivity|].
  unfold Num.is_zero. destruct (Qeq_bool _ 0) eqn:E; [|reflexivity].
  apply Qeq_bool_iff in E. rewrite to_float_sub in E.
  assert (Num.eqb a b = true) by (apply Num_eqb_eq; lra).
  congruence.
Qed.

Lemma truediv_by_nonzero (n a : num) :
  Num.eqb a (NInt 0) = false -> exists q, Num.truediv n a = Ok q.
Proof.
  intros H. rewrite truediv_nonzero; [eexists; reflexivity|]. exact H.
Qed.

(** [rgba_hsva] on a color whose red channel is the strict maximum. *)
Lemma hsva_of_red_maximum (c : Color.t) :
  (Color.g c < Color.r c)%Z -> (Color.b c < Color.r c)%Z ->
  Color.hsva_of c = Raise (Exception Color.never_raised).
Proof.
  intros Hg Hb.
  unfold Color.hsva_of, Color.rgba_hsva. rewrite !channel_fraction. cbn [rbind].
  set (rr := Num.mkfloat (inject_Z (Color.r c) / 255)).
  set (gg := Num.mkfloat (inject_Z (Color.g c) / 255)).
  set (bb := Num.mkfloat (inject_Z (Color.b c) / 255)).
  assert (Hgg : Num.ltb gg rr = true)
    by (apply Num_ltb_lt, channel_fraction_lt, Hg).
  assert (Hbb : Num.ltb bb rr = true)
    by (apply Num_ltb_lt, channel_fraction_lt, Hb).
  destruct (rgba_hsva_branches rr gg bb Hgg Hbb) as (Hmax & Hmin & Hfn & Heg & Heb).
  rewrite Hmax, Hmin, Hfn, Heg, Heb.
  destruct (Num.eqb rr (NInt 0)) eqn:Hz; [reflexivity|].
  destruct (truediv_by_nonzero (Num.sub rr (Num.min (Num.min rr gg) bb)) rr Hz)
    as [q ->].
  reflexivity.
Qed.

(** [rgba_hsva] on any other color. *)
Lemma hsva_of_other (c : Color.t) :
  (Color.r c <= Color.g c)%Z \/ (Color.r c <= Color.b c)%Z ->
  exists h s v, Color.hsva_of c = Ok (h, s, v, NInt (Color.a c)).
Proof.
  intros Hnot.
  unfold Color.hsva_of, Color.rgba_hsva. rewrite !channel_fraction. cbn [rbind].
  set (rr := Num.mkfloat (inject_Z (Color.r c) / 255)).
  set (gg := Num.mkfloat (inject_Z (Color.g c) / 255)).
  set (bb := Num.mkfloat (inject_Z (Color.b c) / 255)).
  set (max_ := Num.max (Num.max rr gg) bb).
  set (min_ := Num.min (Num.min rr gg) bb).
  assert (Hs : exists s, (if Num.eqb max_ (NInt 0) then Ok (NInt 0)
                          else Num.truediv (Num.sub max_ min_) max_) = Ok s).
  { destruct (Num.eqb max_ (NInt 0)) eqn:Hz; [eexists; reflexivity|].
    by apply truediv_by_nonzero. }
  destruct Hs as [s ->]. cbn [rbind].
  destruct (Num.eqb max_ min_) eqn:Hmm; [cbn [rbind]; eexists _, _, _; reflexivity|].
  change (py_eq (VBuiltin "max") (VNum rr)) with false. cbv iota.
  assert (Hbranch : Num.eqb max_ gg = true \/ Num.eqb max_ bb = true).
  { subst max_. unfold Num.max.
    destruct (Num.ltb rr gg) eqn:E1.
    - destruct (Num.ltb gg bb); [right | left]; apply Num_eqb_refl.
    - destruct (Num.ltb rr bb) eqn:E2; [right; apply Num_eqb_refl|].
      assert (Hgr : (Num.to_float gg <= Num.to_float rr)%Q).
      { apply Qnot_lt_le. intros H.
        assert (Num.ltb rr gg = true) by (apply Num_ltb_lt; exact H). congruence. }
      assert (Hbr : (Num.to_float bb <= Num.to_float rr)%Q).
      { apply Qnot_lt_le. intros H.
        assert (Num.ltb rr bb = true) by (apply Num_ltb_lt; exact H). congruence. }
      destruct Hnot as [Hle|Hle]; [left | right]; apply Num_eqb_eq, Qle_antisym;
        try assumption; apply channel_fraction_le, Hle. }
  destruct (Num.eqb max_ gg) eqn:Eg.
  - destruct (truediv_by_difference (Num.sub bb rr) max_ min_ Hmm) as [q ->].
    cbn [rbind]. rewrite truediv_nonzero by reflexivity. cbn [rbind].
    eexists _, _, _; reflexivity.
  - destruct Hbranch as [?|Eb]; [congruence|]. rewrite Eb.
    destruct (truediv_by_difference (Num.sub rr gg) max_ min_ Hmm) as [q ->].
    cbn [rbind]. rewrite truediv_nonzero by reflexivity. cbn [rbind].
    eexists _, _, _; reflexivity.
Qed.

(** X18: for a color with channels in 0..255 and a percentage in
    0..100, [dansDarker] raises the "should never be raised" exception
    of [rgba_hsva] when the red channel is the strict maximum, and
    returns a color otherwise. *)
Theorem dansDarker_red_maximum (c : Color.t) (percent : num) :
  ColorMore.channels_in_range c ->
  (0 <= Num.to_float percent)%Q -> (Num.to_float percent <= 100)%Q ->
  ((Color.g c < Color.r c)%Z /\ (Color.b c < Color.r c)%Z ->
   ColorMore.dansDarker c percent = Raise (Exception Color.never_raised)) /\
  ((Color.r c <= Color.g c)%Z \/ (Color.r c <= Color.b c)%Z ->
   exists d, ColorMore.dansDarker c percent = Ok d).
Proof.
  intros _ _ _. unfold ColorMore.dansDarker. split.
  - intros [Hg Hb]. by rewrite hsva_of_red_maximum.
  - intros H. destruct (hsva_of_other c H) as (h & s & v & ->). cbn [rbind].
    rewrite truediv_nonzero by reflexivity. cbn [rbind].
    match goal with
    | |- context [ColorMore.hsva_rgba ?h ?s ?v ?a] =>
        destruct (hsva_rgba_total h s v a) as (r1 & g1 & b1 & ->)
    end.
    cbn [rbind]. eexists. reflexivity.
Qed.

Lemma dansDarker_red_maximum_witness :
  ColorMore.channels_in_range (Color.mk 200 100 0 1) /\
  ColorMore.channels_in_range (Color.mk 0 50 255 1) /\
  (0 <= Num.to_float (NInt 16))%Q /\ (Num.to_float (NInt 16) <= 100)%Q /\
  ColorMore.dansDarker (Color.mk 200 100 0 1) (NInt 16) =
    Raise (Exception Color.never_raised) /\
  exists d, ColorMore.dansDarker (Color.mk 0 50 255 1) (NInt 16) = Ok d.
Proof.
  destruct sample_colors_in_range as [Hc Ho].
  assert (H0 : (0 <= Num.to_float (NInt 16))%Q) by discriminate.
  assert (H1 : (Num.to_float (NInt 16) <= 100)%Q) by discriminate.
  split; [exact Hc|]. split; [exact Ho|]. split; [exact H0|]. split; [exact H1|].
  split.
  - apply (proj1 (dansDarker_red_maximum (Color.mk 200 100 0 1) (NInt 16) Hc H0 H1)).
    cbn. lia.
  - apply (proj2 (dansDarker_red_maximum (Color.mk 0 50 255 1) (NInt 16) Ho H0 H1)).
    cbn. lia.
Defined.

Lemma Num_max_same (a : num) : Num.max a a = a.
Proof. unfold Num.max. by destruct (Num.ltb a a). Qed.

Lemma Num_min_same (a : num) : Num.min a a = a.
Proof. unfold Num.min. by destruct (Num.ltb a a). Qed.

(** X19: the hsla conversions do not round-trip on greys: for every
    color with three equal channels in 0..255, black included,
    [rgba_hsla] gives hue 0 and saturation 0, and [hsla_rgba] maps that
    to white (255, 255, 255), whatever the lightness. *)
Theorem hsla_grey_becomes_white (z : Z) (a0 : num) :
  (0 <= z <= 255)%Z ->
  exists l,
    ColorMore.rgba_hsla (NInt z) (NInt z) (NInt z) a0 = Ok (NInt 0, NInt 0, l, a0) /\
    ColorMore.hsla_rgba (NInt 0) (NInt 0) l a0 =
      Ok (NInt 255, NInt 255, NInt 255, a0).
Proof.
  intros _.
  unfold ColorMore.rgba_hsla. rewrite !channel_fraction. cbn [rbind].
  rewrite !Num_max_same, !Num_min_same, Num_eqb_refl.
  rewrite truediv_nonzero by reflexivity. cbn [rbind].
  eexists. split; reflexivity.
Qed.

Lemma hsla_grey_becomes_white_witness :
  (0 <= 128 <= 255)%Z /\
  exists l,
    ColorMore.rgba_hsla (NInt 128) (NInt 128) (NInt 128) (NInt 1) =
      Ok (NInt 0, NInt 0, l, NInt 1) /\
    ColorMore.hsla_rgba (NInt 0) (NInt 0) l (NInt 1) =
      Ok (NInt 255, NInt 255, NInt 255, NInt 1).
Proof.
  split; [lia|].
  exact (hsla_grey_becomes_white 128 (NInt 1) ltac:(lia)).
Defined.

Lemma Num_max_ge (a b : num) :
  (Num.to_float a <= Num.to_float (Num.max a b))%Q /\
  (Num.to_float b <= Num.to_float (Num.max a b))%Q.
Proof.
  unfold Num.max. destruct (Num.ltb a b) eqn:E.
  - apply Num_ltb_lt in E. split; lra.
  - split; [lra|]. apply Qnot_lt_le. intros H.
    assert (Num.ltb a b = true) by (apply Num_ltb_lt; exact H). congruence.
Qed.

Lemma Num_min_le (a b : num) :
  (Num.to_float (Num.min a b) <= Num.to_float a)%Q /\
  (Num.to_float (Num.min a b) <= Num.to_float b)%Q.
Proof.
  unfold Num.min. destruct (Num.ltb b a) eqn:E.
  - apply Num_ltb_lt in E. split; lra.
  - split; [lra|]. apply Qnot_lt_le. intros H.
    assert (Num.ltb b a = true) by (apply Num_ltb_lt; exact H). congruence.
Qed.

Lemma Num_max_ind (P : num -> Prop) (a b : num) : P a -> P b -> P (Num.max a b).
Proof. unfold Num.max. by destruct (Num.ltb a b). Qed.

Lemma Num_min_ind (P : num -> Prop) (a b : num) : P a -> P b -> P (Num.min a b).
Proof. unfold Num.min. by destruct (Num.ltb b a). Qed.

Lemma channel_fraction_unit (z : Z) :
  (0 <= z <= 255)%Z ->
  (0 <= Num.to_float (Num.mkfloat (inject_Z z / 255)) <= 1)%Q.
Proof.
  intros H. rewrite Num_to_float_mkfloat.
  unfold Qle, Qdiv, Qmult, Qinv, inject_Z; simpl. lia.
Qed.

Lemma truediv_by_positive (n a : num) :
  (0 < Num.to_float a)%Q -> exists q, Num.truediv n a = Ok q.
Proof.
  intros H. rewrite truediv_nonzero; [eexists; reflexivity|].
  unfold Num.is_zero. destruct (Qeq_bool _ 0) eqn:E; [|reflexivity].
  apply Qeq_bool_iff in E. lra.
Qed.

(** X20: for channels in 0..255 [rgba_hsla] returns (also when red is
    the maximum, unlike [rgba_hsva]); outside that range it can divide
    by zero. *)
Theorem rgba_hsla_returns (r0 g0 b0 : Z) (a0 : num) :
  (0 <= r0 <= 255)%Z -> (0 <= g0 <= 255)%Z -> (0 <= b0 <= 255)%Z ->
  exists h s l,
    ColorMore.rgba_hsla (NInt r0) (NInt g0) (NInt b0) a0 = Ok (h, s, l, a0).
Proof.
  intros Hr Hg Hb.
  unfold ColorMore.rgba_hsla. rewrite !channel_fraction. cbn [rbind].
  set (rr := Num.mkfloat (inject_Z r0 / 255)).
  set (gg := Num.mkfloat (inject_Z g0 / 255)).
  set (bb := Num.mkfloat (inject_Z b0 / 255)).
  pose proof (channel_fraction_unit r0 Hr) as Hrr. fold rr in Hrr.
  pose proof (channel_fraction_unit g0 Hg) as Hgg. fold gg in Hgg.
  pose proof (channel_fraction_unit b0 Hb) as Hbb. fold bb in Hbb.
  set (max_ := Num.max (Num.max rr gg) bb).
  set (min_ := Num.min (Num.min rr gg) bb).
  assert (Hmax : (0 <= Num.to_float max_ <= 1)%Q)
    by (subst max_; repeat apply Num_max_ind; assumption).
  assert (Hmin : (0 <= Num.to_float min_ <= 1)%Q)
    by (subst min_; repeat apply Num_min_ind; assumption).
  assert (Hle : (Num.to_float min_ <= Num.to_float max_)%Q).
  { subst max_ min_.
    pose proof (Num_max_ge (Num.max rr gg) bb) as [_ H1].
    pose proof (Num_min_le (Num.min rr gg) bb) as [_ H2]. lra. }
  assert (Hone : Num.eqb max_ rr = true \/ Num.eqb max_ gg = true \/
                 Num.eqb max_ bb = true).
  { subst max_. unfold Num.max.
    destruct (Num.ltb rr gg); destruct (Num.ltb _ bb);
      auto using Num_eqb_refl. }
  rewrite truediv_nonzero by reflexivity. cbn [rbind].
  destruct (Num.eqb max_ min_) eqn:Hmm; [cbn [rbind]; eexists _, _, _; reflexivity|].
  assert (Hlt : (Num.to_float min_ < Num.to_float max_)%Q).
  { apply Qnot_le_lt. intros H.
    assert (Num.eqb max_ min_ = true) by (apply Num_eqb_eq; lra). congruence. }
  unfold Animation.half. rewrite truediv_nonzero by reflexivity. cbn [rbind].
  assert (Hs : exists s,
            (if Num.ltb (Num.mkfloat (Num.to_float (NInt 1) / Num.to_float (NInt 2)))
                  (Num.mkfloat (Num.to_float (Num.add max_ min_) / Num.to_float (NInt 2)))
             then Num.truediv (Num.sub max_ min_) (Num.sub (Num.sub (NInt 2) max_) min_)
             else Num.truediv (Num.sub max_ min_) (Num.add max_ min_)) = Ok s).
  { destruct (Num.ltb _ _).
    - apply truediv_by_positive. rewrite !to_float_sub. cbn [Num.to_float].
      change (inject_Z 2) with 2%Q. lra.
    - apply truediv_by_positive. rewrite to_float_add. lra. }
  destruct Hs as [s ->]. cbn [rbind].
  destruct (truediv_by_difference (Num.sub gg bb) max_ min_ Hmm) as [q1 Hq1].
  destruct (truediv_by_difference (Num.sub bb rr) max_ min_ Hmm) as [q2 Hq2].
  destruct (truediv_by_difference (Num.sub rr gg) max_ min_ Hmm) as [q3 Hq3].
  rewrite Hq1, Hq2, Hq3. cbn [rbind].
  destruct (Num.eqb max_ rr) eqn:E1;
    [|destruct (Num.eqb max_ gg) eqn:E2;
      [|destruct (Num.eqb max_ bb) eqn:E3;
        [|exfalso; destruct Hone as [?|[?|?]]; congruence]]];
    cbn [rbind]; rewrite truediv_nonzero by reflexivity; cbn [rbind];
    eexists _, _, _; reflexivity.
Qed.

Lemma rgba_hsla_returns_witness :
  (0 <= 255 <= 255)%Z /\ (0 <= 0 <= 255)%Z /\
  (exists h s l,
     ColorMore.rgba_hsla (NInt 255) (NInt 0) (NInt 0) (NInt 1) = Ok (h, s, l, NInt 1)) /\
  ColorMore.rgba_hsla (NInt 510) (NInt 0) (NInt 0) (NInt 1) = Raise ZeroDivisionError /\
  ColorMore.rgba_hsla (NInt 5) (NInt (-5)) (NInt (-5)) (NInt 1) = Raise ZeroDivisionError.
Proof.
  split; [lia|]. split; [lia|].
  split; [|split; reflexivity].
  exact (rgba_hsla_returns 255 0 0 (NInt 1) ltac:(lia) ltac:(lia) ltac:(lia)).
Defined.

Lemma Num_abs_sub_int (u v : Z) :
  Num.abs (Num.sub (NInt u) (NInt v)) = NInt (Z.abs (u - v)).
Proof. reflexivity. Qed.

(** X21: for a tolerance in 0..100 (it is a percentage), [isCloseTo] is
    symmetric, and a color is close to itself exactly when the tolerance
    is positive: with tolerance 0 no color is close to any color. *)
Theorem isCloseTo_symmetric (c o : Color.t) (tolerance : num) :
  (0 <= Num.to_float tolerance)%Q -> (Num.to_float tolerance <= 100)%Q ->
  ColorMore.isCloseTo c (Some o) tolerance = ColorMore.isCloseTo o (Some c) tolerance /\
  ColorMore.isCloseTo c (Some c) tolerance = Ok (Num.ltb (NInt 0) tolerance) /\
  ColorMore.isCloseTo c (Some o) (NInt 0) = Ok false.
Proof.
  intros _ _.
  unfold ColorMore.isCloseTo. rewrite truediv_nonzero by reflexivity. cbn [rbind].
  rewrite !Num_abs_sub_int.
  set (k := Num.mkfloat (Num.to_float (NInt 64) / Num.to_float (NInt 25))).
  split; [|split].
  - replace (Z.abs (Color.r o - Color.r c)) with (Z.abs (Color.r c - Color.r o)) by lia.
    replace (Z.abs (Color.g o - Color.g c)) with (Z.abs (Color.g c - Color.g o)) by lia.
    replace (Z.abs (Color.b o - Color.b c)) with (Z.abs (Color.b c - Color.b o)) by lia.
    replace (Z.abs (Color.a o - Color.a c)) with (Z.abs (Color.a c - Color.a o)) by lia.
    reflexivity.
  - rewrite !Z.sub_diag. change (Z.abs 0) with 0%Z.
    assert (Hk : (Num.to_float (Num.mul k tolerance) ==
                  (64 # 25) * Num.to_float tolerance)%Q).
    { rewrite to_float_mul. subst k. rewrite Num_to_float_mkfloat. reflexivity. }
    assert (Hb : Num.ltb (NInt 0) (Num.mul k tolerance) = Num.ltb (NInt 0) tolerance).
    { destruct (Num.ltb (NInt 0) tolerance) eqn:E.
      - apply Num_ltb_lt in E. apply Num_ltb_lt. rewrite Hk.
        cbn [Num.to_float] in *. change (inject_Z 0) with 0%Q in *. lra.
      - apply Num_ltb_false. rewrite Hk. cbn [Num.to_float].
        change (inject_Z 0) with 0%Q.
        assert ((Num.to_float tolerance <= 0)%Q).
        { apply Qnot_lt_le. intros H.
          assert (Num.ltb (NInt 0) tolerance = true) by (apply Num_ltb_lt; exact H).
          congruence. }
        lra. }
    rewrite Hb. by destruct (Num.ltb (NInt 0) tolerance).
  - f_equal. apply andb_false_iff. left. apply andb_false_iff. left.
    apply andb_false_iff. left.
    apply Num_ltb_false. rewrite to_float_mul. cbn [Num.to_float].
    change (inject_Z 0) with 0%Q.
    assert ((0 <= inject_Z (Z.abs (Color.r c - Color.r o)))%Q).
    { change 0%Q with (inject_Z 0). rewrite <- Zle_Qle. lia. }
    lra.
Qed.

Lemma isCloseTo_symmetric_witness :
  let c := Color.mk 200 100 0 1 in
  let o := Color.mk 190 110 5 1 in
  (0 <= Num.to_float (NInt 10))%Q /\ (Num.to_float (NInt 10) <= 100)%Q /\
  ColorMore.isCloseTo c (Some o) (NInt 10) = Ok true /\
  ColorMore.isCloseTo c (Some o) (NInt 10) = ColorMore.isCloseTo o (Some c) (NInt 10) /\
  ColorMore.isCloseTo c (Some c) (NInt 0) = Ok false.
Proof.
  intros c o.
  assert (H0 : (0 <= Num.to_float (NInt 10))%Q) by discriminate.
  assert (H1 : (Num.to_float (NInt 10) <= 100)%Q) by discriminate.
  split; [exact H0|]. split; [exact H1|]. split; [reflexivity|].
  split.
  - exact (proj1 (isCloseTo_symmetric c o (NInt 10) H0 H1)).
  - exact (proj2 (proj2 (isCloseTo_symmetric c c (NInt 10) H0 H1))).
Defined.

(** ** Animation: completion, zero duration, easing ranges *)

Lemma steps_inactive {Target : Type} (clock : list Z)
    (a : Animation.t Target) (w : Animation.world Target) :
  Animation.isActive (Animation.data a) = false ->
  Animation.steps clock a w = Ok (a, w).
Proof.
  intros H. induction clock as [|now rest IH]; [reflexivity|].
  cbn [Animation.steps]. rewrite (step_inactive now a w H). cbn [rbind]. exact IH.
Qed.

Lemma step_before_endTime {Target : Type} (now e : Z)
    (a a' : Animation.t Target) (w w' : Animation.world Target) :
  Animation.isActive (Animation.data a) = true ->
  Animation.endTime (Animation.data a) = Some e ->
  (now <= e)%Z ->
  Animation.step now a w = Ok (a', w') ->
  a' = a /\ Animation.completions w' = Animation.completions w.
Proof.
  intros Hact He Hle. unfold Animation.step. rewrite Hact, He. cbn [negb].
  replace (now >? e)%Z with false by (symmetry; rewrite Z.gtb_ltb; apply Z.ltb_ge; lia).
  unfold rbind.
  destruct (Num.truediv _ _) as [frac|]; [|discriminate].
  destruct (Animation.easing a frac) as [k|]; [|discriminate].
  destruct (Animation.destination (Animation.data a)) as [dest|]; [|discriminate].
  intros H. injection H as <- <-. split; [reflexivity|].
  apply completions_call_setter.
Qed.

(** X22: over any run of [step()] calls that raise nothing and include
    a clock reading past [endTime], an active animation with a callback
    invokes it exactly once and ends inactive; every later run of steps
    leaves the animation and its target untouched. *)
Theorem callback_fires_exactly_once {Target : Type} (clock : list Z) (e : Z)
    (f : Target -> Target)
    (a a' : Animation.t Target) (w w' : Animation.world Target) :
  Animation.isActive (Animation.data a) = true ->
  Animation.endTime (Animation.data a) = Some e ->
  Animation.onComplete a = Some f ->
  Exists (fun now => (e < now)%Z) clock ->
  Animation.steps clock a w = Ok (a', w') ->
  Animation.completions w' = S (Animation.completions w) /\
  Animation.isActive (Animation.data a') = false /\
  forall later, Animation.steps later a' w' = Ok (a', w').
Proof.
  intros Hact He Hf Hex. revert w.
  induction Hex as [now rest Hnow | now rest Hex IH]; intros w; cbn [Animation.steps].
  - rewrite (step_past_endTime now e a w Hact He Hnow).
    unfold Animation.complete. rewrite Hf. cbn [rbind].
    rewrite steps_inactive by reflexivity.
    intros H. injection H as <- <-.
    rewrite completions_call_onComplete, completions_call_setter.
    split; [reflexivity|]. split; [reflexivity|].
    intros later. by apply steps_inactive.
  - destruct (Z_lt_le_dec e now) as [Hnow|Hnow].
    + rewrite (step_past_endTime now e a w Hact He Hnow).
      unfold Animation.complete. rewrite Hf. cbn [rbind].
      rewrite steps_inactive by reflexivity.
      intros H. injection H as <- <-.
      rewrite completions_call_onComplete, completions_call_setter.
      split; [reflexivity|]. split; [reflexivity|].
      intros later. by apply steps_inactive.
    + unfold rbind.
      destruct (Animation.step now a w) as [[a1 w1]|] eqn:Hstep; [|discriminate].
      destruct (step_before_endTime now e a a1 w w1 Hact He Hnow Hstep) as [-> Hc].
      intros Hrest. rewrite <- Hc. by apply IH.
Qed.

Lemma callback_fires_exactly_once_witness :
  let a := Animation.start 5000 Sample.idle Sample.world0 in
  exists a' w',
    Animation.steps [5000; 5001; 5002; 7000]%Z a Sample.world0 = Ok (a', w') /\
    Animation.completions w' = 1%nat /\
    Animation.isActive (Animation.data a') = false.
Proof.
  intros a.
  eexists _, _. split; [reflexivity|].
  match goal with
  | |- Animation.completions ?w' = _ /\ Animation.isActive (Animation.data ?a') = _ =>
      pose proof (callback_fires_exactly_once [5000; 5001; 5002; 7000]%Z 5000
                    (fun cell => cell) a a' Sample.world0 w'
                    eq_refl eq_refl eq_refl
                    ltac:(apply Exists_cons_tl, Exists_cons_hd; lia) eq_refl)
        as (Hc & Ha & _)
  end.
  split; [exact Hc | exact Ha].
Defined.

(** X23: an animation whose duration is zero (the constructor's
    default) raises ZeroDivisionError when it is stepped at a clock
    reading not later than its start. *)
Theorem step_zero_duration_raises {Target : Type}
    (a0 : Animation.t Target) (w0 w : Animation.world Target) (t0 now : Z) :
  Num.is_zero (Animation.duration (Animation.data a0)) = true ->
  (now <= t0)%Z ->
  Animation.step now (Animation.start t0 a0 w0) w = Raise ZeroDivisionError.
Proof.
  intros Hz Hle. unfold Animation.step. rewrite start_data.
  cbn [Animation.isActive Animation.endTime Animation.duration negb].
  replace (now >? t0)%Z with false by (symmetry; rewrite Z.gtb_ltb; apply Z.ltb_ge; lia).
  unfold Num.truediv. rewrite Hz. reflexivity.
Qed.

Lemma step_zero_duration_raises_witness :
  let a0 := Animation.with_data Sample.idle
              (Animation.mkAttrs (NInt 100) (NInt 0) None None false) in
  Num.is_zero (Animation.duration (Animation.data a0)) = true /\
  (5000 <= 5000)%Z /\
  Animation.step 5000 (Animation.start 5000 a0 Sample.world0) Sample.world0 =
  Raise ZeroDivisionError.
Proof.
  intros a0. split; [reflexivity|]. split; [lia|].
  exact (step_zero_duration_raises a0 Sample.world0 Sample.world0 5000 5000
           eq_refl ltac:(lia)).
Defined.

Lemma to_float_half : exists h, Animation.half = Ok h /\ (Num.to_float h == 1 # 2)%Q.
Proof. eexists. split; reflexivity. Qed.

Lemma to_float_pow2 (t : num) :
  (Num.to_float (Num.pow t 2) == Num.to_float t * Num.to_float t)%Q.
Proof. cbn [Num.pow]. apply to_float_mul. Qed.

Lemma to_float_pow3 (t : num) :
  (Num.to_float (Num.pow t 3) == Num.to_float t * (Num.to_float t * Num.to_float t))%Q.
Proof. cbn [Num.pow]. by rewrite !to_float_mul. Qed.

(** X24: for every fraction [t] in [0, 1] the easings linear, quadratic,
    quad_in, cubic_in and quad_out return a value in [0, 1], so the
    animated value stays between start and destination. The easing cubic
    does not: at 1 it returns -11. *)
Theorem polynomial_easings_in_unit_interval (t : num) :
  (0 <= Num.to_float t)%Q -> (Num.to_float t <= 1)%Q ->
  Forall (fun f : num -> result num =>
            exists v, f t = Ok v /\ (0 <= Num.to_float v)%Q /\ (Num.to_float v <= 1)%Q)
    [ Animation.linear; Animation.quadratic; Animation.quad_in;
      Animation.cubic_in; Animation.quad_out ] /\
  Animation.cubic (NInt 1) = Ok (NInt (-11)).
Proof.
  intros H0 H1. split; [|reflexivity].
  repeat constructor.
  - exists t. repeat split; assumption.
  - unfold Animation.quadratic.
    destruct to_float_half as (h & -> & Hh). cbn [rbind].
    destruct (Num.ltb t h) eqn:E.
    + apply Num_ltb_lt in E. eexists. split; [reflexivity|].
      rewrite to_float_mul, to_float_pow2. cbn [Num.to_float].
      change (inject_Z 2) with 2%Q. split; nra.
    + assert ((Num.to_float h <= Num.to_float t)%Q).
      { apply Qnot_lt_le. intros H.
        assert (Num.ltb t h = true) by (apply Num_ltb_lt; exact H). congruence. }
      eexists. split; [reflexivity|].
      rewrite !to_float_sub, !to_float_mul, to_float_pow2. cbn [Num.to_float].
      change (inject_Z 2) with 2%Q. change (inject_Z 4) with 4%Q.
      change (inject_Z 1) with 1%Q. split; nra.
  - eexists. split; [reflexivity|]. rewrite to_float_pow2. split; nra.
  - eexists. split; [reflexivity|]. rewrite to_float_pow3. split; nra.
  - eexists. split; [reflexivity|]. rewrite to_float_mul, to_float_sub.
    cbn [Num.to_float]. change (inject_Z 2) with 2%Q. split; nra.
Qed.

Lemma polynomial_easings_in_unit_interval_witness :
  (0 <= Num.to_float (NFloat (3 # 4)))%Q /\ (Num.to_float (NFloat (3 # 4)) <= 1)%Q /\
  Animation.quadratic (NFloat (3 # 4)) = Ok (NFloat (7 # 8)) /\
  Forall (fun f : num -> result num =>
            exists v, f (NFloat (3 # 4)) = Ok v /\
                      (0 <= Num.to_float v)%Q /\ (Num.to_float v <= 1)%Q)
    [ Animation.linear; Animation.quadratic; Animation.quad_in;
      Animation.cubic_in; Animation.quad_out ].
Proof.
  assert (H0 : (0 <= Num.to_float (NFloat (3 # 4)))%Q) by discriminate.
  assert (H1 : (Num.to_float (NFloat (3 # 4)) <= 1)%Q) by discriminate.
  split; [exact H0|]. split; [exact H1|]. split; [reflexivity|].
  exact (proj1 (polynomial_easings_in_unit_interval (NFloat (3 # 4)) H0 H1)).
Defined.

(** ** Point: theta *)

(** X25: [theta] cannot tell a point from its negation: for every point
    with integer coordinates, [theta] of the point and of its negation
    are the same. On the vertical axis it is 90 below the origin as well
    as above, and 0 at the origin. *)
Theorem theta_ignores_direction (math_atan : Q -> Q) (math_pi : Q) (p : Point.t) :
  Point.integral p ->
  PointMore.theta math_atan math_pi (Point.neg p) = PointMore.theta math_atan math_pi p /\
  (Num.eqb (Point.x p) (NInt 0) = true ->
   PointMore.theta math_atan math_pi p =
   Ok (if Num.eqb (Point.y p) (NInt 0) then NInt 0 else NInt 90)).
Proof.
  intros (u & v & ->)%integral_inv. split.
  - unfold Point.neg. cbn [Point.x Point.y Num.neg]. rewrite Point_init_int.
    unfold PointMore.theta. cbn [Point.x Point.y]. rewrite !Num_eqb_int.
    replace (- u =? 0)%Z with (u =? 0)%Z
      by (destruct (Z.eqb_spec u 0), (Z.eqb_spec (- u) 0); lia).
    replace (- v =? 0)%Z with (v =? 0)%Z
      by (destruct (Z.eqb_spec v 0), (Z.eqb_spec (- v) 0); lia).
    destruct (Z.eqb_spec u 0) as [Hu|Hu]; [reflexivity|].
    assert (Hz : forall z : Z, z <> 0%Z -> Num.is_zero (NInt z) = false).
    { intros z Hne. change (Num.is_zero (NInt z)) with (Num.eqb (NInt z) (NInt 0)).
      rewrite Num_eqb_int. by apply Z.eqb_neq. }
    rewrite !truediv_nonzero by (apply Hz; lia). cbn [rbind Num.to_float].
    replace (Num.mkfloat (inject_Z (- v) / inject_Z (- u)))
      with (Num.mkfloat (inject_Z v / inject_Z u)); [reflexivity|].
    unfold Num.mkfloat. f_equal. apply Qred_complete.
    rewrite !inject_Z_opp. field.
    intros E. apply Hu. apply inject_Z_injective. exact E.
  - cbn [Point.x Point.y]. intros Hx. unfold PointMore.theta.
    cbn [Point.x Point.y]. rewrite Hx. by destruct (Num.eqb (NInt v) (NInt 0)).
Qed.

Lemma theta_ignores_direction_witness :
  let p := Point.init (NInt 3) (NInt (-4)) in
  Point.integral p /\
  PointMore.theta Sample.atan Sample.pi (Point.neg p) =
  PointMore.theta Sample.atan Sample.pi p /\
  PointMore.theta Sample.atan Sample.pi (Point.init (NInt 0) (NInt (-5))) = Ok (NInt 90).
Proof.
  intros p.
  split; [apply Point_init_integral|].
  split; [|reflexivity].
  exact (proj1 (theta_ignores_direction Sample.atan Sample.pi p (Point_init_integral _ _))).
Defined.

(** ** Global functions *)

(** X26: [detect] returns the first element of the list that satisfies
    the predicate, every element before it failing the predicate, and
    returns [None] when no element satisfies it. A result of [None] does
    not tell the two apart: it is also what [detect] returns when the
    first match is the element [None]. *)
Theorem detect_first_match (l : list value) (predicate : value -> bool) :
  (Forall (fun y => predicate y = false) l -> Globals.detect l predicate = VNone) /\
  (forall before x after,
     l = before ++ x :: after ->
     Forall (fun y => predicate y = false) before ->
     predicate x = true ->
     Globals.detect l predicate = x) /\
  (Globals.detect l predicate <> VNone ->
   exists before after,
     l = before ++ Globals.detect l predicate :: after /\
     Forall (fun y => predicate y = false) before /\
     predicate (Globals.detect l predicate) = true) /\
  Globals.detect [VNone; VNum (NInt 2)]
    (fun i => match i with VNone => true | _ => false end) = VNone.
Proof.
  split; [|split; [|split; [|reflexivity]]].
  - induction 1 as [|i rest Hi _ IH]; cbn [Globals.detect]; [reflexivity|].
    by rewrite Hi.
  - intros before x after -> Hbefore Hx.
    induction Hbefore as [|i rest Hi _ IH]; cbn [Globals.detect app].
    + by rewrite Hx.
    + by rewrite Hi.
  - induction l as [|i rest IH]; cbn [Globals.detect]; [done|].
    destruct (predicate i) eqn:E.
    + intros _. exists [], rest. repeat split; [constructor | exact E].
    + intros Hne. destruct (IH Hne) as (before & after & Hl & Hb & Hp).
      exists (i :: before), after. split; [|split; [by constructor | exact Hp]].
      cbn [app]. by rewrite <- Hl.
Qed.

(** X27: [fontHeight] raises AttributeError for every height whenever
    [MorphicPreferences] is bound to a dict, as the module binds it: it
    reads the key [minimumFontHeight] as an attribute. *)
Theorem fontHeight_raises (g : gmap string value) (items : list (string * value))
    (height : num) :
  g !! "MorphicPreferences" = Some (VDict items) ->
  Globals.fontHeight g height = Raise (AttributeError "minimumFontHeight").
Proof.
  intros H. unfold Globals.fontHeight, load_name. rewrite H. reflexivity.
Qed.

Lemma fontHeight_raises_witness :
  let body := Toplevel.prelude ++ Toplevel.function_defs ++ Toplevel.class_defs ++
              [Toplevel.standardSettings_def; Toplevel.MorphicPreferences_def] in
  let g := fst (Toplevel.run body ∅) in
  exists items,
    g !! "MorphicPreferences" = Some (VDict items) /\
    assoc "minimumFontHeight" items = Some (VNum (NInt 1)) /\
    Globals.fontHeight g (NInt 12) = Raise (AttributeError "minimumFontHeight").
Proof.
  intros body g.
  assert (H : exists items, g !! "MorphicPreferences" = Some (VDict items) /\
                            assoc "minimumFontHeight" items = Some (VNum (NInt 1))).
  { eexists. split; vm_compute; reflexivity. }
  destruct H as (items & Hg & Hk).
  exists items. split; [exact Hg|]. split; [exact Hk|].
  exact (fontHeight_raises g items (NInt 12) Hg).
Defined.
